(** * scrapy-selenium: the [SeleniumMiddleware] downloader middleware

    A shallow embedding of [scrapy_selenium/middlewares.py].  The middleware is
    a thin, sequential driver of three foreign libraries (importlib, selenium,
    scrapy).  Every call that leaves the repository's own code is a _command_;
    a method of the middleware is a finite tree of commands whose branches are
    indexed by what the foreign side answers (a value or a raised exception).
    An _environment_ interprets commands over a world of its own; theorems are
    stated for every environment, and a small scripted browser at the end of
    the definitions serves as a concrete one. *)

From stdpp Require Import gmap strings list.
From Stdlib Require Import NArith ZArith.

Set Warnings "-register-all".
Local Open Scope N_scope.

(** ** Python data *)

(** A Python [str] is a sequence of Unicode code points. *)
Abbreviation pystr := (list N).

(** A string literal of the source (all of them are ASCII). *)
Definition lit (s : string) : pystr :=
  Ascii.N_of_ascii <$> String.list_ascii_of_string s.

Arguments lit : simpl never.

(** Opaque references to foreign objects: modules, classes, the options
    object, the driver, a wait object, a wait condition. *)
Abbreviation handle := nat.

(** Plain data as found in a settings module. *)
Inductive pyvalue : Type :=
| PNone
| PBool (b : bool)
| PInt (z : Z)
| PStr (s : pystr)
| PList (l : list pyvalue)
| PDict (d : list (pystr * pyvalue)).

(** What a dict slot or keyword argument can hold: data, a [bytes] object or a
    reference to a foreign object. *)
Inductive pyobject : Type :=
| Data (v : pyvalue)
| Bytes (b : list N)
| Ref (h : handle).

(** Truth value testing ([if x:]). *)
Definition truthy (v : pyvalue) : bool :=
  match v with
  | PNone => false
  | PBool b => b
  | PInt z => negb (z =? 0)%Z
  | PStr s => match s with [] => false | _ => true end
  | PList l => match l with [] => false | _ => true end
  | PDict d => match d with [] => false | _ => true end
  end.

(** [x is None] and [x is True]: identity with the two singletons. *)
Definition is_None (v : pyvalue) : bool :=
  match v with PNone => true | _ => false end.

Definition is_True (v : pyvalue) : bool :=
  match v with PBool true => true | _ => false end.

(** Exceptions.  The foreign side raises [ext_exn]; the middleware's own code
    and the interpreter's dynamic checks raise the other constructors. *)
Inductive ext_exn : Type :=
| TimeoutException
| ExtError (name : pystr).

Inductive exn : Type :=
| NotConfigured (msg : pystr)
| TypeError
| AttributeError
| UnicodeEncodeError
| External (e : ext_exn).

Abbreviation result A := (exn + A)%type.

(** *** str.lower, str.startswith *)

Definition ascii_lower (c : N) : N :=
  if (65 <=? c) && (c <=? 90) then c + 32 else c.

Fixpoint startswith (s p : pystr) : bool :=
  match p, s with
  | [], _ => true
  | _ :: _, [] => false
  | a :: p', b :: s' => (a =? b) && startswith s' p'
  end.

(** *** str.encode (UTF-8, strict) *)

Definition utf8_encode_cp (c : N) : option (list N) :=
  if c <? 0x80 then Some [c]
  else if c <? 0x800 then
    Some [N.lor 0xC0 (N.shiftr c 6); N.lor 0x80 (N.land c 0x3F)]
  else if c <? 0x10000 then
    if (0xD800 <=? c) && (c <=? 0xDFFF) then None
    else Some [N.lor 0xE0 (N.shiftr c 12);
               N.lor 0x80 (N.land (N.shiftr c 6) 0x3F);
               N.lor 0x80 (N.land c 0x3F)]
  else if c <? 0x110000 then
    Some [N.lor 0xF0 (N.shiftr c 18);
          N.lor 0x80 (N.land (N.shiftr c 12) 0x3F);
          N.lor 0x80 (N.land (N.shiftr c 6) 0x3F);
          N.lor 0x80 (N.land c 0x3F)]
  else None.

Fixpoint utf8_encode (s : pystr) : option (list N) :=
  match s with
  | [] => Some []
  | c :: s' =>
      match utf8_encode_cp c, utf8_encode s' with
      | Some b, Some bs => Some (b ++ bs)
      | _, _ => None
      end
  end.

(** [str.encode(s)]: the default encoding is UTF-8 with strict error
    handling, which rejects lone surrogates. *)
Definition str_encode (s : pystr) : result (list N) :=
  match utf8_encode s with
  | Some b => inr b
  | None => inl UnicodeEncodeError
  end.

(** *** Iteration and attribute access on data *)

(** [for x in v]. *)
Definition py_iter (v : pyvalue) : result (list pyvalue) :=
  match v with
  | PList l => inr l
  | PStr s => inr ((λ c, PStr [c]) <$> s)
  | PDict d => inr ((λ kv, PStr kv.1) <$> d)
  | PNone | PBool _ | PInt _ => inl TypeError
  end.

(** [v.items()]: only a dict has the method. *)
Definition py_items (v : pyvalue) : result (list (pystr * pyvalue)) :=
  match v with
  | PDict d => inr d
  | _ => inl AttributeError
  end.

(** ** Commands to the foreign side *)

(** A string the source computes with [format] or [str.capitalize], kept as
    written: literal pieces, interpolated values, and a capitalized string.
    Rendering is the interpreter's business and never fails on data. *)
Inductive fpart : Type :=
| FLit (s : pystr)
| FVal (v : pyvalue)
| FCapitalize (s : pystr).

Abbreviation fstring := (list fpart).

Definition flit (s : string) : fstring := [FLit (lit s)].

Inductive cmd : Type :=
(* importlib and the object protocol *)
| ImportModule (name : fstring)
| ImportFrom (package name : fstring)
| GetAttr (o : handle) (attr : fstring)
| Instantiate (klass : handle) (kwargs : list (fstring * pyobject))
(* the driver's options object *)
| SetBinaryLocation (o : handle) (v : pyvalue)
| AddArgument (o : handle) (argument : pyvalue)
| SetCapability (o : handle) (key : pystr) (value : pyvalue)
| Capabilities (o : handle)
| ToCapabilities (o : handle)
| Print (args : list pyvalue)
(* the browser session *)
| Get (d : handle) (url : pystr)
| AddCookie (d : handle) (cookie : pyvalue)
| WebDriverWait (d : handle) (timeout : pyvalue)
| Until (w : handle) (method : handle)
| GetScreenshotAsPng (d : handle)
| ExecuteScript (d : handle) (script : pystr)
| PageSource (d : handle)
| CurrentUrl (d : handle)
| Quit (d : handle).

(** The type of a command's answer. *)
Definition ret (c : cmd) : Type :=
  match c with
  | ImportModule _ | ImportFrom _ _ | GetAttr _ _ | Instantiate _ _
  | WebDriverWait _ _ => handle
  | SetBinaryLocation _ _ | AddArgument _ _ | SetCapability _ _ _ | Print _
  | Get _ _ | AddCookie _ _ | Quit _ => unit
  | Capabilities _ | ToCapabilities _ | Until _ _ | ExecuteScript _ _ => pyvalue
  | GetScreenshotAsPng _ => list N
  | PageSource _ | CurrentUrl _ => pystr
  end.

(** ** Programs *)

Inductive prog (A : Type) : Type :=
| Ret (a : A)
| Vis (c : cmd) (k : ext_exn + ret c → prog A).

Arguments Ret {A} a.
Arguments Vis {A} c k.

(** A method body: it reads and updates one mutable object of type [S] (the
    request, the crawler, [self]) and either returns or raises; the object
    keeps the updates made before an exception. *)
Definition M (S A : Type) : Type := S → prog (result A * S).

Definition mret {S A} (a : A) : M S A := λ s, Ret (inr a, s).

Definition raise {S A} (e : exn) : M S A := λ s, Ret (inl e, s).

Fixpoint pbind {A B} (p : prog A) (f : A → prog B) : prog B :=
  match p with
  | Ret a => f a
  | Vis c k => Vis c (λ r, pbind (k r) f)
  end.

Definition mbind {S A B} (m : M S A) (f : A → M S B) : M S B :=
  λ s, pbind (m s) (λ '(r, s'),
    match r with
    | inl e => Ret (inl e, s')
    | inr a => f a s'
    end).

Declare Scope py_scope.
Delimit Scope py_scope with py.
Notation "x ← m ; k" := (mbind m (λ x, k))
  (at level 20, m at level 100, k at level 200, only parsing) : py_scope.
Notation "m ;; k" := (mbind m (λ _, k))
  (at level 100, k at level 200, right associativity) : py_scope.

(** One foreign call; an exception it raises becomes the method's. *)
Definition call {S} (c : cmd) : M S (ret c) :=
  λ s, Vis c (λ r,
    match r with
    | inl e => Ret (inl (External e), s)
    | inr x => Ret (inr x, s)
    end).

Definition get_state {S} : M S S := λ s, Ret (inr s, s).

Definition modify {S} (f : S → S) : M S unit := λ s, Ret (inr tt, f s).

Definition lift_result {S A} (r : result A) : M S A :=
  match r with
  | inl e => raise e
  | inr a => mret a
  end.

(** [if c: body]. *)
Definition when {S} (c : bool) (body : M S unit) : M S unit :=
  if c then body else mret tt.

(** [for x in l: body]. *)
Fixpoint for_each {S X} (l : list X) (body : X → M S unit) : M S unit :=
  match l with
  | [] => mret tt
  | x :: l' => (body x ;; for_each l' body)%py
  end.

(** ** The data the middleware handles *)

(** The middleware object: [self.driver] is bound by [__init__] when one of
    its two branches runs, and is missing otherwise. *)
Record SeleniumMiddleware : Type := { driver : option handle }.

(** scrapy's [Request]: the fields the middleware touches.  [cookies] is a
    dict; its items are kept in insertion order. *)
Record Request : Type := {
  url : pystr;
  cookies : list (pystr * pyvalue);
  meta : gmap pystr pyobject
}.

(** Modelled from the spec: the [SeleniumRequest] class of
    [scrapy_selenium/request.py], which extends [Request] with a wait
    timeout, a wait condition (a callable, or [None]), a screenshot flag and a
    script to execute (a [str], or [None]). *)
Record SeleniumFields : Type := {
  wait_time : pyvalue;
  wait_until : option handle;
  screenshot : bool;
  script : option pystr
}.

Inductive request : Type :=
| PlainRequest (r : Request)
| SeleniumRequest (r : Request) (x : SeleniumFields).

(** [request.meta[key] = value]. *)
Definition meta_set (key : pystr) (value : pyobject) (rq : request) : request :=
  let upd r := {| url := url r; cookies := cookies r;
                  meta := <[key := value]> (meta r) |} in
  match rq with
  | PlainRequest r => PlainRequest (upd r)
  | SeleniumRequest r x => SeleniumRequest (upd r) x
  end.

Arguments meta_set : simpl never.

(** scrapy's [HtmlResponse] as constructed by the middleware. *)
Record HtmlResponse : Type := {
  response_url : pystr;
  body : list N;
  encoding : pystr;
  response_request : request
}.

(** scrapy's signal manager, as far as [connect] is concerned. *)
Inductive signal : Type :=
| signals_spider_closed
| signals_other (name : pystr).

(** A connected receiver: the bound method [middleware.spider_closed]. *)
Inductive receiver : Type :=
| bound_spider_closed (middleware : SeleniumMiddleware).

Record Crawler : Type := {
  settings : gmap pystr pyvalue;
  signals : list (receiver * signal)
}.

(** [crawler.settings.get(name)]: [None] for a missing name. *)
Definition settings_get (crawler : Crawler) (name : string) : pyvalue :=
  default PNone (settings crawler !! lit name).

(** [crawler.signals.connect(receiver, signal)]. *)
Definition signals_connect (r : receiver) (sg : signal) (crawler : Crawler) : Crawler :=
  {| settings := settings crawler; signals := signals crawler ++ [(r, sg)] |}.

Arguments settings_get : simpl never.
Arguments signals_connect : simpl never.

(** ** The middleware *)

Local Open Scope py_scope.

(** [argument.lower()] on a configured argument, as far as the test
    [.startswith('user-agent')] made on it can tell: [str.lower] is Unicode
    aware, but the only code points outside A-Z whose lower case begins with
    an ASCII letter are U+0130 (giving i) and U+212A (giving k), and neither
    letter occurs in the prefix tested, so the ASCII mapping decides the test
    as the Unicode one does. *)
Definition str_lower (v : pyvalue) : result pystr :=
  match v with
  | PStr s => inr (ascii_lower <$> s)
  | _ => inl AttributeError
  end.

(** [driver_name.capitalize()]. *)
Definition str_capitalize (v : pyvalue) : result fstring :=
  match v with
  | PStr s => inr [FCapitalize s]
  | _ => inl AttributeError
  end.

(** The default of [driver_use_wire] in the signature of [__init__]. *)
Definition default_driver_use_wire : pyvalue := PBool true.

(** The body of the loop over [driver_arguments]. *)
Definition add_driver_argument (driver_options : handle)
    (driver_user_agent argument : pyvalue) : M SeleniumMiddleware unit :=
  lowered ← lift_result (str_lower argument);
  let argument :=
    if startswith lowered (lit "user-agent") then
      if truthy driver_user_agent then driver_user_agent else argument
    else argument in
  call (AddArgument driver_options argument).

Definition banner : pyvalue := PStr (replicate 120 42).

Definition __init__
    (driver_name driver_executable_path browser_executable_path
     command_executor driver_arguments desired_capabilities_arguments
     driver_use_wire driver_wire_options driver_user_agent : pyvalue)
  : M SeleniumMiddleware unit :=
  let webdriver_base_path := [FLit (lit "selenium.webdriver."); FVal driver_name] in
  driver_klass_module ← call (ImportModule (webdriver_base_path ++ flit ".webdriver"));
  driver_klass ← call (GetAttr driver_klass_module (flit "WebDriver"));
  driver_options_module ← call (ImportModule (webdriver_base_path ++ flit ".options"));
  driver_options_klass ← call (GetAttr driver_options_module (flit "Options"));
  driver_options ← call (Instantiate driver_options_klass []);
  when (truthy browser_executable_path)
    (call (SetBinaryLocation driver_options browser_executable_path));;
  arguments ← lift_result (py_iter driver_arguments);
  for_each arguments (add_driver_argument driver_options driver_user_agent);;
  when (truthy desired_capabilities_arguments)
    (items ← lift_result (py_items desired_capabilities_arguments);
     for_each items (λ '(key, value),
       call (SetCapability driver_options key value)));;
  if negb (is_None driver_executable_path) then
    (* the dict literal, as the sequence of its key assignments *)
    let driver_kwargs :=
      [(flit "executable_path", Data driver_executable_path);
       ([FVal driver_name; FLit (lit "_options")], Ref driver_options)] in
    (if is_True driver_use_wire then
       let driver_kwargs :=
         if truthy driver_wire_options
         then driver_kwargs ++ [(flit "seleniumwire_options", Data driver_wire_options)]
         else driver_kwargs in
       wire_driver_klass_module ← call (ImportModule (flit "seleniumwire.webdriver"));
       capitalized ← lift_result (str_capitalize driver_name);
       wire_driver_klass ← call (GetAttr wire_driver_klass_module capitalized);
       d ← call (Instantiate wire_driver_klass driver_kwargs);
       modify (λ _, {| driver := Some d |})
     else
       d ← call (Instantiate driver_klass driver_kwargs);
       modify (λ _, {| driver := Some d |}));;
    capabilities ← call (Capabilities driver_options);
    call (Print [banner; PStr (10 :: lit "driver_kwargs: "); capabilities;
                 PStr [10]; driver_wire_options; PStr [10]; banner])
  else if negb (is_None command_executor) then
    webdriver ← call (ImportFrom (flit "selenium") (flit "webdriver"));
    capabilities ← call (ToCapabilities driver_options);
    remote ← call (GetAttr webdriver (flit "Remote"));
    d ← call (Instantiate remote
                [(flit "command_executor", Data command_executor);
                 (flit "desired_capabilities", Data capabilities)]);
    modify (λ _, {| driver := Some d |})
  else mret tt.

(** [cls(...)]: a fresh object initialised by [init]; the caller's own object
    is untouched, and an exception of [init] is the caller's. *)
Definition construct {S} (init : M SeleniumMiddleware unit) : M S SeleniumMiddleware :=
  λ s, pbind (init {| driver := None |}) (λ '(r, self),
    match r with
    | inl e => Ret (inl e, s)
    | inr _ => Ret (inr self, s)
    end).

Definition from_crawler : M Crawler SeleniumMiddleware :=
  crawler ← get_state;
  let driver_name := settings_get crawler "SELENIUM_DRIVER_NAME" in
  let driver_executable_path := settings_get crawler "SELENIUM_DRIVER_EXECUTABLE_PATH" in
  let browser_executable_path := settings_get crawler "SELENIUM_BROWSER_EXECUTABLE_PATH" in
  let command_executor := settings_get crawler "SELENIUM_COMMAND_EXECUTOR" in
  let driver_arguments := settings_get crawler "SELENIUM_DRIVER_ARGUMENTS" in
  let desired_capabilities := settings_get crawler "SELENIUM_DRIVER_DESIRED_CAPABILITIES" in
  let driver_use_wire := settings_get crawler "SELENIUM_DRIVER_USE_WIRE" in
  let driver_wire_options := settings_get crawler "SELENIUM_DRIVER_WIRE_OPTIONS" in
  let driver_user_agent := settings_get crawler "SELENIUM_DRIVER_USER_AGENT" in
  if is_None driver_name then
    raise (NotConfigured (lit "SELENIUM_DRIVER_NAME must be set"))
  else if is_None driver_executable_path && is_None command_executor then
    raise (NotConfigured (lit "Either SELENIUM_DRIVER_EXECUTABLE_PATH or SELENIUM_COMMAND_EXECUTOR must be set"))
  else
    middleware ← construct
      (__init__ driver_name driver_executable_path browser_executable_path
         command_executor driver_arguments desired_capabilities
         driver_use_wire driver_wire_options driver_user_agent);
    modify (signals_connect (bound_spider_closed middleware) signals_spider_closed);;
    mret middleware.

(** [self.driver]: an [AttributeError] when [__init__] bound no driver. *)
Definition self_driver {S} (self : SeleniumMiddleware) : M S handle :=
  match driver self with
  | Some d => mret d
  | None => raise AttributeError
  end.

(** The dict passed to [add_cookie]. *)
Definition cookie_dict (cookie_name : pystr) (cookie_value : pyvalue) : pyvalue :=
  PDict [(lit "name", PStr cookie_name); (lit "value", cookie_value)].

Arguments cookie_dict : simpl never.

(** [process_request(self, request, spider)]; [spider] is not used.  The
    state is the request object, which the method updates in place. *)
Definition process_request (self : SeleniumMiddleware) : M request (option HtmlResponse) :=
  request ← get_state;
  match request with
  | PlainRequest _ => mret None
  | SeleniumRequest r x =>
      d ← self_driver self;
      call (Get d (url r));;
      for_each (cookies r) (λ '(cookie_name, cookie_value),
        call (AddCookie d (cookie_dict cookie_name cookie_value)));;
      match wait_until x with
      | Some method =>
          w ← call (WebDriverWait d (wait_time x));
          call (Until w method);; mret tt
      | None => mret tt
      end;;
      when (screenshot x)
        (png ← call (GetScreenshotAsPng d);
         modify (meta_set (lit "screenshot") (Bytes png)));;
      match script x with
      | Some (c :: s) => call (ExecuteScript d (c :: s));; mret tt
      | _ => mret tt
      end;;
      page_source ← call (PageSource d);
      body ← lift_result (str_encode page_source);
      modify (meta_set (lit "driver") (Ref d));;
      current_url ← call (CurrentUrl d);
      request ← get_state;
      mret (Some {| response_url := current_url; body := body;
                    encoding := lit "utf-8"; response_request := request |})
  end.

Definition spider_closed {S} (self : SeleniumMiddleware) : M S unit :=
  d ← self_driver self;
  call (Quit d).

(** What scrapy does with a connected receiver when its signal is sent. *)
Definition receive {S} (r : receiver) : M S unit :=
  match r with
  | bound_spider_closed middleware => spider_closed middleware
  end.

(** ** Environments and runs *)

(** The foreign side: a world and its answer to each command. *)
Record env : Type := {
  world : Type;
  respond : ∀ c : cmd, world → (ext_exn + ret c) * world
}.

(** One step of a run: a command and the answer it got. *)
Record event : Type := Event {
  command : cmd;
  answer : ext_exn + ret command
}.

(** Running a program: its value, the final world and the events, in
    order. *)
Fixpoint run {A} (E : env) (p : prog A) (w : world E) : A * world E * list event :=
  match p with
  | Ret a => (a, w, [])
  | Vis c k =>
      let rw := respond E c w in
      let o := run E (k rw.1) rw.2 in
      (o.1.1, o.1.2, Event c rw.1 :: o.2)
  end.

Definition value {A W} (o : A * W * list event) : A := o.1.1.
Definition final {A W} (o : A * W * list event) : W := o.1.2.
Definition trace {A W} (o : A * W * list event) : list event := o.2.

(** The world after a sequence of commands that all succeed. *)
Fixpoint succeed (E : env) (cs : list cmd) (w : world E) : option (world E) :=
  match cs with
  | [] => Some w
  | c :: cs' =>
      match respond E c w with
      | (inr _, w') => succeed E cs' w'
      | (inl _, _) => None
      end
  end.

(** ** Specifications over all environments

    [wp p Q]: whatever the foreign side answers, the value [p] ends with and
    the events of the run satisfy [Q]. *)
Fixpoint wp {A} (p : prog A) (Q : A → list event → Prop) : Prop :=
  match p with
  | Ret a => Q a []
  | Vis c k => ∀ r, wp (k r) (λ a t, Q a (Event c r :: t))
  end.

(** The same for a method started on the object [s]: [Q] speaks of the
    result, the object at the end and the events. *)
Definition triple {S A} (m : M S A) (s : S)
    (Q : result A → S → list event → Prop) : Prop :=
  wp (m s) (λ o t, Q o.1 o.2 t).

(** Safety: the events of [m] all satisfy [P] and its exceptions [X],
    whatever it is answered. *)
Definition safe {S A} (P : event → Prop) (X : exn → Prop) (m : M S A) : Prop :=
  ∀ s, triple m s (λ r _ t, Forall P t ∧ ∀ e, r = inl e → X e).

(** ** A scripted browser

    A concrete environment: handles are handed out in sequence, the options
    object collects its arguments and capabilities, the one session has a
    location, a cookie jar and a clock, and stops answering once it has quit.
    A wait condition [n] holds from tick [n] of the clock on, and [until]
    polls once per tick. *)
Module Scripted.

Record state : Type := {
  fresh : handle;
  arguments : list pyvalue;
  capabilities : list (pystr * pyvalue);
  location : pystr;
  jar : list (pystr * pyvalue);
  clock : nat;
  timeouts : list (handle * nat);
  closed : bool
}.

Definition initial : state :=
  {| fresh := 0%nat; arguments := []; capabilities := []; location := [];
     jar := []; clock := 0%nat; timeouts := []; closed := false |}.

(** A session in use: its driver has handle 0. *)
Definition started : state :=
  {| fresh := 1%nat; arguments := []; capabilities := []; location := [];
     jar := []; clock := 0%nat; timeouts := []; closed := false |}.

Definition allocate (w : state) : ext_exn + handle * state :=
  inr (fresh w,
       {| fresh := S (fresh w); arguments := arguments w;
          capabilities := capabilities w; location := location w;
          jar := jar w; clock := clock w; timeouts := timeouts w;
          closed := closed w |}).

Definition session_gone : ext_exn := ExtError (lit "InvalidSessionIdException").

(** Polling: [fuel] polls are left, one tick apart. *)
Fixpoint poll (fuel now since : nat) : option nat :=
  match fuel with
  | O => None
  | S fuel' => if (since <=? now)%nat then Some now else poll fuel' (S now) since
  end.

Fixpoint timeout_of (h : handle) (l : list (handle * nat)) : option nat :=
  match l with
  | [] => None
  | (h', t) :: l' => if (h =? h')%nat then Some t else timeout_of h l'
  end.

(** The answer, with the new state when the command succeeds. *)
Definition answer (c : cmd) (w : state) : ext_exn + ret c * state :=
  match c as c0 return ext_exn + ret c0 * state with
  | ImportModule _ | ImportFrom _ _ | GetAttr _ _ | Instantiate _ _ => allocate w
  | SetBinaryLocation _ _ | Print _ => inr (tt, w)
  | AddArgument _ a =>
      inr (tt, {| fresh := fresh w; arguments := arguments w ++ [a];
                  capabilities := capabilities w; location := location w;
                  jar := jar w; clock := clock w; timeouts := timeouts w;
                  closed := closed w |})
  | SetCapability _ k v =>
      inr (tt, {| fresh := fresh w; arguments := arguments w;
                  capabilities := capabilities w ++ [(k, v)];
                  location := location w; jar := jar w; clock := clock w;
                  timeouts := timeouts w; closed := closed w |})
  | Capabilities _ | ToCapabilities _ => inr (PDict (capabilities w), w)
  | WebDriverWait _ timeout =>
      match timeout with
      | PInt t =>
          inr (fresh w,
               {| fresh := S (fresh w); arguments := arguments w;
                  capabilities := capabilities w; location := location w;
                  jar := jar w; clock := clock w;
                  timeouts := (fresh w, Z.to_nat t) :: timeouts w;
                  closed := closed w |})
      | _ => inl (ExtError (lit "TypeError"))
      end
  | Get _ u =>
      if closed w then inl session_gone else
      inr (tt, {| fresh := fresh w; arguments := arguments w;
                  capabilities := capabilities w; location := u;
                  jar := jar w; clock := clock w; timeouts := timeouts w;
                  closed := closed w |})
  | AddCookie _ cookie =>
      if closed w then inl session_gone else
      match cookie with
      | PDict [(_, PStr name); (_, value)] =>
          inr (tt, {| fresh := fresh w; arguments := arguments w;
                      capabilities := capabilities w; location := location w;
                      jar := jar w ++ [(name, value)]; clock := clock w;
                      timeouts := timeouts w; closed := closed w |})
      | _ => inl (ExtError (lit "InvalidArgumentException"))
      end
  | Until h since =>
      if closed w then inl session_gone else
      match timeout_of h (timeouts w) with
      | None => inl (ExtError (lit "AttributeError"))
      | Some timeout =>
          match poll (S timeout) (clock w) since with
          | Some now =>
              inr (PBool true,
                   {| fresh := fresh w; arguments := arguments w;
                      capabilities := capabilities w; location := location w;
                      jar := jar w; clock := now; timeouts := timeouts w;
                      closed := closed w |})
          | None => inl TimeoutException
          end
      end
  | GetScreenshotAsPng _ =>
      if closed w then inl session_gone else inr ([137; 80; 78; 71], w)
  | ExecuteScript _ _ =>
      if closed w then inl session_gone else inr (PNone, w)
  | PageSource _ =>
      if closed w then inl session_gone
      else inr (lit "<html>" ++ location w ++ lit "</html>", w)
  | CurrentUrl _ =>
      if closed w then inl session_gone else inr (location w, w)
  | Quit _ =>
      if closed w then inl session_gone else
      inr (tt, {| fresh := fresh w; arguments := arguments w;
                  capabilities := capabilities w; location := location w;
                  jar := jar w; clock := clock w; timeouts := timeouts w;
                  closed := true |})
  end.

Definition browser : env :=
  {| world := state;
     respond := λ c w,
       match answer c w with
       | inl e => (inl e, w)
       | inr (x, w') => (inr x, w')
       end |}.

(** Sample configurations: a local chrome driver with an argument list and
    a user-agent override, and the crawler settings carrying it. *)
Definition chromedriver : pyvalue := PStr (lit "/usr/bin/chromedriver").

Definition hub : pyvalue := PStr (lit "http://hub:4444/wd/hub").

Definition sample_arguments : list pystr :=
  [lit "--headless"; lit "User-Agent=Mozilla/4.0"; lit "--user-agent-stylesheet"].

Definition sample_user_agent : pyvalue := PStr (lit "user-agent=Crawler/1.0").

Definition local_crawler : Crawler :=
  {| settings := list_to_map
       [(lit "SELENIUM_DRIVER_NAME", PStr (lit "chrome"));
        (lit "SELENIUM_DRIVER_EXECUTABLE_PATH", chromedriver);
        (lit "SELENIUM_COMMAND_EXECUTOR", hub);
        (lit "SELENIUM_DRIVER_ARGUMENTS", PList (PStr <$> sample_arguments));
        (lit "SELENIUM_DRIVER_USER_AGENT", sample_user_agent)];
     signals := [] |}.

(** A crawler without a driver name. *)
Definition unnamed_crawler : Crawler :=
  {| settings := list_to_map [(lit "SELENIUM_COMMAND_EXECUTOR", hub)];
     signals := [] |}.

End Scripted.

(** ** Observations on a run *)

Definition cookie_commands (d : handle) (cs : list (pystr * pyvalue)) : list cmd :=
  (λ kv, AddCookie d (cookie_dict kv.1 kv.2)) <$> cs.

(** The events of injecting the cookies [cs], each one accepted. *)
Definition cookie_events (d : handle) (cs : list (pystr * pyvalue)) : list event :=
  (λ kv, Event (AddCookie d (cookie_dict kv.1 kv.2)) (inr tt)) <$> cs.

Definition navigates_or_injects (c : cmd) : bool :=
  match c with
  | Get _ _ | AddCookie _ _ => true
  | _ => false
  end.

(** The events by which objects are obtained: imports, attribute lookups,
    instantiations and the conversion of the options to capabilities. *)
Definition is_construction (c : cmd) : bool :=
  match c with
  | ImportModule _ | ImportFrom _ _ | GetAttr _ _ | Instantiate _ _
  | ToCapabilities _ => true
  | _ => false
  end.

Definition construction (t : list event) : list event :=
  List.filter (λ e, is_construction (command e)) t.

(** The calls of [add_argument]: the options object and the argument. *)
Definition is_added (e : event) : option (handle * pyvalue) :=
  match command e with
  | AddArgument o argument => Some (o, argument)
  | _ => None
  end.

Definition added (t : list event) : list (handle * pyvalue) := omap is_added t.

(** What the spec says is appended for a configured argument: the user-agent
    override when the argument, lowercased, starts with [user-agent] and an
    override is configured; the argument itself otherwise. *)
Definition effective_argument (driver_user_agent : pyvalue) (argument : pystr) : pyvalue :=
  if startswith (ascii_lower <$> argument) (lit "user-agent") && truthy driver_user_agent
  then driver_user_agent
  else PStr argument.

(** The first five steps of [__init__], all answered. *)
Definition prelude_events (driver_name : pyvalue) (m1 k1 m2 k2 o : handle) : list event :=
  [Event (ImportModule ([FLit (lit "selenium.webdriver."); FVal driver_name]
                          ++ flit ".webdriver")) (inr m1);
   Event (GetAttr m1 (flit "WebDriver")) (inr k1);
   Event (ImportModule ([FLit (lit "selenium.webdriver."); FVal driver_name]
                          ++ flit ".options")) (inr m2);
   Event (GetAttr m2 (flit "Options")) (inr k2);
   Event (Instantiate k2 []) (inr o)].

Definition local_kwargs (driver_name path : pyvalue) (o : handle)
  : list (fstring * pyobject) :=
  [(flit "executable_path", Data path);
   ([FVal driver_name; FLit (lit "_options")], Ref o)].

Definition wire_kwargs (driver_name path : pyvalue) (o : handle) (wire_options : pyvalue)
  : list (fstring * pyobject) :=
  if truthy wire_options
  then local_kwargs driver_name path o ++ [(flit "seleniumwire_options", Data wire_options)]
  else local_kwargs driver_name path o.

(** The standard driver: the class [WebDriver] found by the prelude ([k1]) is
    instantiated. *)
Definition standard_events (driver_name path : pyvalue) (k1 o d : handle) : list event :=
  [Event (Instantiate k1 (local_kwargs driver_name path o)) (inr d)].

(** The wire driver: the class named by the capitalized driver name is looked
    up in [seleniumwire.webdriver] and instantiated. *)
Definition wire_events (name : pystr) (path wire_options : pyvalue)
    (o m3 k3 d : handle) : list event :=
  [Event (ImportModule (flit "seleniumwire.webdriver")) (inr m3);
   Event (GetAttr m3 [FCapitalize name]) (inr k3);
   Event (Instantiate k3 (wire_kwargs (PStr name) path o wire_options)) (inr d)].

(** The remote driver: [webdriver.Remote] on the command executor, with the
    capabilities the options object converts to. *)
Definition remote_events (command_executor : pyvalue) (o wd : handle)
    (capabilities : pyvalue) (remote d : handle) : list event :=
  [Event (ImportFrom (flit "selenium") (flit "webdriver")) (inr wd);
   Event (ToCapabilities o) (inr capabilities);
   Event (GetAttr wd (flit "Remote")) (inr remote);
   Event (Instantiate remote
            [(flit "command_executor", Data command_executor);
             (flit "desired_capabilities", Data capabilities)]) (inr d)].

(** What a successful [__init__] did: the prelude, the arguments added to the
    options object [o] it instantiated, and the driver of the branch taken,
    bound to [self.driver]. *)
Definition initialised
    (driver_name path command_executor driver_arguments driver_use_wire
     driver_wire_options driver_user_agent : pyvalue)
    (self' : SeleniumMiddleware) (t : list event) : Prop :=
  ∃ m1 k1 m2 k2 o arguments evs,
    py_iter driver_arguments = inr (PStr <$> arguments) ∧
    added t = (λ a, (o, effective_argument driver_user_agent a)) <$> arguments ∧
    construction t = prelude_events driver_name m1 k1 m2 k2 o ++ evs ∧
    if negb (is_None path) then
      if is_True driver_use_wire then
        ∃ name m3 k3 d,
          driver_name = PStr name ∧
          evs = wire_events name path driver_wire_options o m3 k3 d ∧
          self' = {| driver := Some d |}
      else
        ∃ d, evs = standard_events driver_name path k1 o d ∧
             self' = {| driver := Some d |}
    else if negb (is_None command_executor) then
      ∃ wd capabilities remote d,
        evs = remote_events command_executor o wd capabilities remote d ∧
        self' = {| driver := Some d |}
    else evs = [].

(** Events that are neither a construction step nor an [add_argument]. *)
Definition quiet (e : event) : Prop :=
  is_construction (command e) = false ∧ is_added e = None.

Definition any_exn (e : exn) : Prop := True.

(** Any exception but [NotConfigured]. *)
Definition configured (e : exn) : Prop := ∀ msg, e ≠ NotConfigured msg.

(** A setting is unset: [settings.get] gives [None]. *)
Definition unset (crawler : Crawler) (name : string) : Prop :=
  settings_get crawler name = PNone.

(** The configuration [from_crawler] refuses: no driver name, or neither a
    local executable path nor a remote command executor. *)
Definition missing_configuration (crawler : Crawler) : Prop :=
  unset crawler "SELENIUM_DRIVER_NAME" ∨
  (unset crawler "SELENIUM_DRIVER_EXECUTABLE_PATH" ∧
   unset crawler "SELENIUM_COMMAND_EXECUTOR").

(** [cls(...)] as called by [from_crawler]: every parameter comes from the
    setting of its name. *)
Definition instantiate_from (crawler : Crawler) : M SeleniumMiddleware unit :=
  __init__
    (settings_get crawler "SELENIUM_DRIVER_NAME")
    (settings_get crawler "SELENIUM_DRIVER_EXECUTABLE_PATH")
    (settings_get crawler "SELENIUM_BROWSER_EXECUTABLE_PATH")
    (settings_get crawler "SELENIUM_COMMAND_EXECUTOR")
    (settings_get crawler "SELENIUM_DRIVER_ARGUMENTS")
    (settings_get crawler "SELENIUM_DRIVER_DESIRED_CAPABILITIES")
    (settings_get crawler "SELENIUM_DRIVER_USE_WIRE")
    (settings_get crawler "SELENIUM_DRIVER_WIRE_OPTIONS")
    (settings_get crawler "SELENIUM_DRIVER_USER_AGENT").

(** ** Reading an encoding back

    No method decodes; the decoder serves to show that [str.encode] loses
    nothing of the page source. *)

(** Reading one code point back from the front of a byte string. *)
Definition utf8_decode_cp (bs : list N) : option (N * list N) :=
  match bs with
  | [] => None
  | b0 :: l =>
      if b0 <? 0x80 then Some (b0, l)
      else if b0 <? 0xC0 then None
      else if b0 <? 0xE0 then
        match l with
        | b1 :: l' => Some (N.lor (N.shiftl (N.land b0 0x1F) 6) (N.land b1 0x3F), l')
        | _ => None
        end
      else if b0 <? 0xF0 then
        match l with
        | b1 :: b2 :: l' =>
            Some (N.lor (N.shiftl (N.land b0 0x0F) 12)
                    (N.lor (N.shiftl (N.land b1 0x3F) 6) (N.land b2 0x3F)), l')
        | _ => None
        end
      else
        match l with
        | b1 :: b2 :: b3 :: l' =>
            Some (N.lor (N.shiftl (N.land b0 0x07) 18)
                    (N.lor (N.shiftl (N.land b1 0x3F) 12)
                       (N.lor (N.shiftl (N.land b2 0x3F) 6) (N.land b3 0x3F))), l')
        | _ => None
        end
  end.

(** Reading a byte string back: at most [fuel] code points. *)
Fixpoint utf8_decode_upto (fuel : nat) (bs : list N) : option pystr :=
  match bs with
  | [] => Some []
  | _ :: _ =>
      match fuel with
      | O => None
      | S fuel' =>
          match utf8_decode_cp bs with
          | Some (c, rest) => cons c <$> utf8_decode_upto fuel' rest
          | None => None
          end
      end
  end.

(** [bs.decode('utf-8')]: a byte string holds at most as many code points as
    bytes. *)
Definition utf8_decode (bs : list N) : option pystr :=
  utf8_decode_upto (length bs) bs.

(** [f] holds of every number of at most [bits] bits. *)
Fixpoint all_below (bits : nat) (f : N → bool) : bool :=
  match bits with
  | O => f 0
  | S b => all_below b (λ n, f (2 * n)) && all_below b (λ n, f (2 * n + 1))
  end.

(** The byte patterns of the encoder, as checks on the payload bits. *)
Definition continuation_ok (l : N) : bool :=
  (N.land (N.lor 0x80 l) 0x3F =? l) && (N.lor 0x80 l <? 256).

Definition lead2_ok (h : N) : bool :=
  let b := N.lor 0xC0 h in
  negb (b <? 0xC0) && (b <? 0xE0) && (N.land b 0x1F =? h).

Definition lead3_ok (h : N) : bool :=
  let b := N.lor 0xE0 h in
  negb (b <? 0xE0) && (b <? 0xF0) && (N.land b 0x0F =? h).

Definition lead4_ok (h : N) : bool :=
  let b := N.lor 0xF0 h in
  negb (b <? 0xF0) && (b <? 256) && (N.land b 0x07 =? h).

(** ** The steps of a request *)

Definition request_meta (rq : request) : gmap pystr pyobject :=
  match rq with PlainRequest r | SeleniumRequest r _ => meta r end.

(** The events of the wait, of the screenshot and of the script, when the
    request asks for them and the session answers. *)
Definition wait_events (d : handle) (x : SeleniumFields) (wait : handle)
    (waited : pyvalue) : list event :=
  match wait_until x with
  | Some method =>
      [Event (WebDriverWait d (wait_time x)) (inr wait);
       Event (Until wait method) (inr waited)]
  | None => []
  end.

Definition screenshot_events (d : handle) (x : SeleniumFields) (png : list N) : list event :=
  if screenshot x then [Event (GetScreenshotAsPng d) (inr png)] else [].

Definition script_events (d : handle) (x : SeleniumFields) (returned : pyvalue) : list event :=
  match script x with
  | Some (c :: s) => [Event (ExecuteScript d (c :: s)) (inr returned)]
  | _ => []
  end.

(** The request object once the screenshot step has run. *)
Definition with_screenshot (x : SeleniumFields) (png : list N) (rq : request) : request :=
  if screenshot x then meta_set (lit "screenshot") (Bytes png) rq else rq.

(** Everything [process_request] does before it reads the page source. *)
Definition steps_before_source (d : handle) (r : Request) (x : SeleniumFields)
    (wait : handle) (waited : pyvalue) (png : list N) (returned : pyvalue) : list event :=
  Event (Get d (url r)) (inr tt) :: cookie_events d (cookies r) ++
  wait_events d x wait waited ++ screenshot_events d x png ++ script_events d x returned.

(** What [process_request] has done on a [SeleniumRequest] when it ends:
    with a response, with the [UnicodeEncodeError] of [str.encode], or with
    an exception of the foreign side. *)
Definition process_request_post (d : handle) (r : Request) (x : SeleniumFields)
    (res : result (option HtmlResponse)) (rq' : request) (t : list event) : Prop :=
  match res with
  | inr resp =>
      ∃ wait waited png returned src u bytes,
        t = steps_before_source d r x wait waited png returned ++
            [Event (PageSource d) (inr src); Event (CurrentUrl d) (inr u)] ∧
        utf8_encode src = Some bytes ∧
        rq' = meta_set (lit "driver") (Ref d)
                (with_screenshot x png (SeleniumRequest r x)) ∧
        resp = Some {| response_url := u; body := bytes; encoding := lit "utf-8";
                       response_request := rq' |}
  | inl UnicodeEncodeError =>
      ∃ wait waited png returned src,
        t = steps_before_source d r x wait waited png returned ++
            [Event (PageSource d) (inr src)] ∧
        utf8_encode src = None ∧
        rq' = with_screenshot x png (SeleniumRequest r x)
  | inl (External _) => True
  | inl _ => False
  end.

(** The shape of a component's specification: what holds when it returns;
    it raises nothing of its own. *)
Definition returns {S A} (R : A → S → list event → Prop)
    (r : result A) (s' : S) (t : list event) : Prop :=
  match r with
  | inr a => R a s' t
  | inl (External _) => True
  | inl _ => False
  end.

(** ** Properties closed under the method combinators *)

(** A postcondition on (result, object before, object after, events) that
    holds of a bare return and of a single call, and is kept by sequencing. *)
Class Compositional {S : Type}
    (Q : ∀ A : Type, result A → S → S → list event → Prop) : Prop := {
  comp_ret : ∀ A (a : A) s, Q A (inr a) s s [];
  comp_call : ∀ c (r : ext_exn + ret c) s,
    Q (ret c) (match r with inl e => inl (External e) | inr x => inr x end)
      s s [Event c r];
  comp_seq : ∀ A B (a : A) (r : result B) s s1 s2 t1 t2,
    Q A (inr a) s s1 t1 → Q B r s1 s2 t2 → Q B r s s2 (t1 ++ t2);
  comp_fail : ∀ A B e s s1 t, Q A (inl e) s s1 t → Q B (inl e) s s1 t
}.

(** [m] satisfies [Q] whatever it is answered. *)
Definition always {S A} (Q : ∀ A : Type, result A → S → S → list event → Prop)
    (m : M S A) : Prop :=
  ∀ s, triple m s (λ r s' t, Q A r s s' t).

(** *** Failing fast *)

(** The command of the event was answered with a value. *)
Definition succeeded (e : event) : Prop :=
  match answer e with inr _ => True | inl _ => False end.

(** A foreign exception is the answer to the last command, all commands
    before it having succeeded; otherwise no command failed. *)
Definition fails_fast {A} (r : result A) (t : list event) : Prop :=
  match r with
  | inl (External e) => ∃ t0 c, t = t0 ++ [Event c (inl e)] ∧ Forall succeeded t0
  | _ => Forall succeeded t
  end.

Definition fail_fast {S} (A : Type) (r : result A) (_ _ : S) (t : list event) : Prop :=
  fails_fast r t.

(** An exception raised by the middleware's code or a dynamic check. *)
Definition own_exn (e : exn) : Prop := ∀ x, e ≠ External x.

(** *** Leaving the object alone *)

Definition keeps {S} (A : Type) (_ : result A) (s s' : S) (_ : list event) : Prop :=
  s' = s.

(** ** The configuration of the options object *)

Definition is_configuration (c : cmd) : bool :=
  match c with
  | SetBinaryLocation _ _ | AddArgument _ _ | SetCapability _ _ _ => true
  | _ => false
  end.

Definition configuration (t : list event) : list cmd :=
  command <$> List.filter (λ e, is_configuration (command e)) t.

(** The configuration [__init__] applies: the binary location when one is
    given, the arguments with the user-agent override applied, the
    capabilities. *)
Definition configuration_commands (o : handle) (browser_executable_path : pyvalue)
    (arguments : list pystr) (driver_user_agent : pyvalue)
    (items : list (pystr * pyvalue)) : list cmd :=
  (if truthy browser_executable_path
   then [SetBinaryLocation o browser_executable_path] else []) ++
  ((λ a, AddArgument o (effective_argument driver_user_agent a)) <$> arguments) ++
  ((λ kv, SetCapability o kv.1 kv.2) <$> items).

Definition init_configured_post (name bp args caps ua : pyvalue)
    (r : result unit) (t : list event) : Prop :=
  r = inr tt →
  ∃ m1 k1 m2 k2 o rest arguments items,
    t = prelude_events name m1 k1 m2 k2 o ++ rest ∧
    py_iter args = inr (PStr <$> arguments) ∧
    (if truthy caps then py_items caps = inr items else items = []) ∧
    configuration t = configuration_commands o bp arguments ua items.

(** The instantiation of a driver class: the one instantiation that passes
    keyword arguments. *)
Definition builds_driver (c : cmd) : bool :=
  match c with
  | Instantiate _ (_ :: _) => true
  | _ => false
  end.

Definition type_error_or_foreign {A} (r : result A) : Prop :=
  ∃ e, r = inl e ∧ (e = TypeError ∨ ∃ x, e = External x).

(** The settings [from_crawler] reads. *)
Definition selenium_settings : list string :=
  ["SELENIUM_DRIVER_NAME"; "SELENIUM_DRIVER_EXECUTABLE_PATH";
   "SELENIUM_BROWSER_EXECUTABLE_PATH"; "SELENIUM_COMMAND_EXECUTOR";
   "SELENIUM_DRIVER_ARGUMENTS"; "SELENIUM_DRIVER_DESIRED_CAPABILITIES";
   "SELENIUM_DRIVER_USE_WIRE"; "SELENIUM_DRIVER_WIRE_OPTIONS";
   "SELENIUM_DRIVER_USER_AGENT"]%string.

(** ** Sample requests and settings *)

(** A request that asks for everything: two cookies, a wait on a condition
    that holds from tick 2 on, a screenshot and a script. *)
Definition full_request : Request :=
  {| url := lit "http://example.com/";
     cookies := [(lit "session", PStr (lit "abc")); (lit "lang", PStr (lit "en"))];
     meta := {[ lit "depth" := Data (PInt 1) ]} |}.

Definition full_fields : SeleniumFields :=
  {| wait_time := PInt 5; wait_until := Some 2%nat; screenshot := true;
     script := Some (lit "window.scrollTo(0, 0)") |}.



Definition sample_capabilities : pyvalue :=
  PDict [(lit "acceptInsecureCerts", PBool true); (lit "pageLoadStrategy", PStr (lit "eager"))].

(** Settings that name a driver and its path and nothing else. *)
Definition bare_crawler : Crawler :=
  {| settings := list_to_map
       [(lit "SELENIUM_DRIVER_NAME", PStr (lit "chrome"));
        (lit "SELENIUM_DRIVER_EXECUTABLE_PATH", Scripted.chromedriver)];
     signals := [] |}.

(** The settings of [Scripted.local_crawler] in a project that sets a bot
    name too, on a crawler that has a receiver connected already. *)
Definition busy_crawler : Crawler :=
  {| settings := <[lit "BOT_NAME" := PStr (lit "quotes")]> (settings Scripted.local_crawler);
     signals := [(bound_spider_closed {| driver := None |}, signals_other (lit "engine_stopped"))] |}.

(** ** The packaging script ([setup.py]) *)
Module Setup.

(** [a < b] on [str]: lexicographic, by code point. *)
Fixpoint str_lt (a b : pystr) : bool :=
  match a, b with
  | _, [] => false
  | [], _ :: _ => true
  | x :: a', y :: b' => (x <? y) || ((x =? y) && str_lt a' b')
  end.

(** [a >= b] on [str]: the order is total. *)
Definition str_ge (a b : pystr) : bool := negb (str_lt a b).

(** Where [PipSession] is imported from. *)
Inductive pip_session : Type :=
| network_session
| download.

Definition session_module (p : pip_session) : pystr :=
  match p with
  | network_session => lit "pip._internal.network.session"
  | download => lit "pip._internal.download"
  end.

(** The branch taken on [pip.__version__]; [None] is the [else] branch,
    which raises [Exception]. *)
Definition select (version : pystr) : option pip_session :=
  if str_ge version (lit "19.3") then Some network_session
  else if str_ge version (lit "10.0") && str_lt version (lit "19.3") then Some download
  else None.

(** How the [try] statement ends. *)
Inductive startup : Type :=
| proceeds (p : pip_session)
| exits
| upgrade_required.

(** The [try] statement.  [importable m] tells whether the [from m import]
    statement on module [m] succeeds; when it does not it raises
    [ImportError], which the handler turns into a message and [sys.exit()].
    The [Exception] of the [else] branch is not an [ImportError] and leaves
    the statement. *)
Definition prepare (version : pystr) (importable : pystr → bool) : startup :=
  match select version with
  | Some p =>
      if importable (lit "pip._internal.req") then
        if importable (session_module p) then proceeds p else exits
      else exits
  | None => upgrade_required
  end.

End Setup.


(** * Properties *)

(** ** Strings *)

Example utf8_ascii : utf8_encode (lit "<html>") = Some [60; 104; 116; 109; 108; 62].
Proof. reflexivity. Qed.

Example utf8_two_bytes : utf8_encode [0xE9] = Some [0xC3; 0xA9].
Proof. reflexivity. Qed.

Example utf8_three_bytes : utf8_encode [0x20AC] = Some [0xE2; 0x82; 0xAC].
Proof. reflexivity. Qed.

Example utf8_four_bytes : utf8_encode [0x1F600] = Some [0xF0; 0x9F; 0x98; 0x80].
Proof. reflexivity. Qed.

Example utf8_lone_surrogate : str_encode [0x61; 0xD800] = inl UnicodeEncodeError.
Proof. reflexivity. Qed.

(** Every string of Unicode scalar values has an encoding. *)
Lemma utf8_encode_scalar (s : pystr) :
  Forall (λ c, c < 0xD800 ∨ 0xDFFF < c < 0x110000) s → is_Some (utf8_encode s).
Proof.
  induction 1 as [| c s Hc _ [b Hb]]; [by eexists |].
  simpl. rewrite Hb. unfold utf8_encode_cp.
  destruct (N.ltb_spec c 0x80); [by eexists |].
  destruct (N.ltb_spec c 0x800); [by eexists |].
  destruct (N.ltb_spec c 0x10000).
  - destruct (N.leb_spec 0xD800 c); destruct (N.leb_spec c 0xDFFF); simpl;
      try by eexists.
    lia.
  - destruct (N.ltb_spec c 0x110000); [by eexists | lia].
Qed.

Example user_agent_argument :
  effective_argument (PStr (lit "ua")) (lit "User-Agent=x") = PStr (lit "ua") ∧
  effective_argument (PStr (lit "ua")) (lit "--user-agent=x") = PStr (lit "--user-agent=x") ∧
  effective_argument PNone (lit "user-agent=x") = PStr (lit "user-agent=x").
Proof. by repeat split. Qed.

(** ** Runs and specifications *)

Section Programs.
Context {A B : Type}.

Lemma wp_mono (p : prog A) (Q Q' : A → list event → Prop) :
  (∀ a t, Q a t → Q' a t) → wp p Q → wp p Q'.
Proof.
  revert Q Q'. induction p as [a | c k IH]; intros Q Q' HQ; simpl.
  - apply HQ.
  - intros Hk r. eapply IH; [| apply Hk]. intros a t. apply HQ.
Qed.

Lemma wp_pbind (p : prog A) (f : A → prog B) (Q : B → list event → Prop) :
  wp p (λ a t, wp (f a) (λ b t', Q b (t ++ t'))) → wp (pbind p f) Q.
Proof.
  revert Q. induction p as [a | c k IH]; intros Q; simpl.
  - intros H. exact H.
  - intros Hk r. apply IH. exact (Hk r).
Qed.

Lemma wp_run (E : env) (p : prog A) (Q : A → list event → Prop) (w : world E) :
  wp p Q → Q (value (run E p w)) (trace (run E p w)).
Proof.
  revert Q w. induction p as [a | c k IH]; intros Q w; simpl.
  - intros H. exact H.
  - intros Hk. exact (IH _ _ _ (Hk _)).
Qed.

Lemma run_pbind (E : env) (p : prog A) (f : A → prog B) (w : world E) :
  run E (pbind p f) w =
    let o := run E p w in
    let o' := run E (f (value o)) (final o) in
    (value o', final o', trace o ++ trace o').
Proof.
  revert w. induction p as [a | c k IH]; intros w; simpl.
  - unfold value, final, trace. simpl. by destruct (run E (f a) w) as [[??]?].
  - rewrite IH. reflexivity.
Qed.

End Programs.

Section Methods.
Context {S A B : Type}.

Lemma run_mbind (E : env) (m : M S A) (f : A → M S B) (s : S) (w : world E) :
  run E (mbind m f s) w =
    let o := run E (m s) w in
    match (value o).1 with
    | inl e => ((inl e, (value o).2), final o, trace o)
    | inr a =>
        let o' := run E (f a (value o).2) (final o) in
        (value o', final o', trace o ++ trace o')
    end.
Proof.
  unfold mbind. cbv beta. rewrite run_pbind. unfold value, final, trace.
  destruct (run E (m s) w) as [[[[e | a] s'] w'] t]; simpl; [| done].
  by rewrite app_nil_r.
Qed.

Lemma run_call (E : env) (c : cmd) (s : S) (w : world E) :
  run E (call c s) w =
    (match (respond E c w).1 with
     | inl e => (inl (External e), s)
     | inr x => (inr x, s)
     end, (respond E c w).2, [Event c (respond E c w).1]).
Proof. simpl. by destruct (respond E c w) as [[e | x] w']. Qed.

Lemma triple_run (E : env) (m : M S A) (s : S) Q (w : world E) :
  triple m s Q →
  Q (value (run E (m s) w)).1 (value (run E (m s) w)).2 (trace (run E (m s) w)).
Proof. intros H. exact (wp_run E _ _ w H). Qed.

Lemma triple_mono (m : M S A) (s : S) (Q Q' : result A → S → list event → Prop) :
  (∀ r s' t, Q r s' t → Q' r s' t) → triple m s Q → triple m s Q'.
Proof. intros HQ. apply wp_mono. intros [r s'] t. apply HQ. Qed.

Lemma triple_ret (a : A) (s : S) Q : Q (inr a) s [] → triple (mret a) s Q.
Proof. done. Qed.

Lemma triple_raise (e : exn) (s : S) (Q : result A → S → list event → Prop) :
  Q (inl e) s [] → triple (raise e) s Q.
Proof. done. Qed.

Lemma triple_lift (r : result A) (s : S) Q : Q r s [] → triple (lift_result r) s Q.
Proof. by destruct r. Qed.

Lemma triple_bind (m : M S A) (f : A → M S B) (s : S) Q :
  triple m s (λ r s' t,
    match r with
    | inl e => Q (inl e) s' t
    | inr a => triple (f a) s' (λ r' s'' t', Q r' s'' (t ++ t'))
    end) →
  triple (mbind m f) s Q.
Proof.
  intros H. unfold triple, mbind. apply wp_pbind.
  eapply wp_mono; [| exact H]. intros [[e | a] s'] t; simpl.
  - by rewrite app_nil_r.
  - done.
Qed.

End Methods.

Lemma run_get_state {S} (E : env) (s : S) (w : world E) :
  run E (get_state s) w = ((inr s, s), w, []).
Proof. reflexivity. Qed.

Lemma run_ret {S A} (E : env) (a : A) (s : S) (w : world E) :
  run E (mret a s) w = ((inr a, s), w, []).
Proof. reflexivity. Qed.

(** Reading a run of sequenced steps from the left. *)
Ltac run_step := rewrite run_mbind; cbn [value final trace fst snd].

Lemma triple_call {S} (c : cmd) (s : S) (Q : result (ret c) → S → list event → Prop) :
  (∀ e, Q (inl (External e)) s [Event c (inl e)]) →
  (∀ x, Q (inr x) s [Event c (inr x)]) →
  triple (call c) s Q.
Proof. intros He Hx [e | x]; simpl; auto. Qed.

Lemma triple_get_state {S} (s : S) Q : Q (inr s) s [] → triple get_state s Q.
Proof. done. Qed.

Lemma triple_modify {S} (f : S → S) (s : S) Q : Q (inr tt) (f s) [] → triple (modify f) s Q.
Proof. done. Qed.

Lemma triple_when {S} (c : bool) (body : M S unit) (s : S) Q :
  (c = true → triple body s Q) → (c = false → Q (inr tt) s []) →
  triple (when c body) s Q.
Proof. intros Ht Hf. destruct c; [by apply Ht | by apply triple_ret, Hf]. Qed.

(** One step of symbolic execution of a method. *)
Ltac triple_step :=
  lazymatch goal with
  | |- triple (mbind _ _) _ _ => apply triple_bind
  | |- triple (call _) _ _ => apply triple_call; intros ?
  | |- triple (mret _) _ _ => apply triple_ret
  | |- triple (raise _) _ _ => apply triple_raise
  | |- triple (modify _) _ _ => apply triple_modify
  | |- triple get_state _ _ => apply triple_get_state
  | |- triple (lift_result _) _ _ => apply triple_lift
  | |- triple (when _ _) _ _ => apply triple_when; intros ?
  | |- triple (match ?x with _ => _ end) _ _ => destruct x eqn:?
  end; cbv beta iota.

(** Sequencing through an intermediate assertion [R] on the first part. *)
Lemma triple_seq {S A B} (m : M S A) (f : A → M S B) (s : S)
    (R : result A → S → list event → Prop) Q :
  triple m s R →
  (∀ r s' t, R r s' t →
     match r with
     | inl e => Q (inl e) s' t
     | inr a => triple (f a) s' (λ r' s'' t', Q r' s'' (t ++ t'))
     end) →
  triple (mbind m f) s Q.
Proof. intros Hm HR. apply triple_bind. by eapply triple_mono; [apply HR |]. Qed.

(** ** Safety: what a method may emit and raise, whatever it is answered *)

Section Safe.
Context {S : Type} (P : event → Prop) (X : exn → Prop).

Lemma safe_ret {A} (a : A) : safe P X (mret (S := S) a).
Proof. intros s. apply triple_ret. split; [constructor | done]. Qed.

Lemma safe_raise {A} (e : exn) : X e → safe P X (raise (S := S) (A := A) e).
Proof. intros He s. apply triple_raise. split; [constructor | congruence]. Qed.

Lemma safe_lift {A} (r : result A) :
  (∀ e, r = inl e → X e) → safe P X (lift_result (S := S) r).
Proof. intros Hr s. apply triple_lift. split; [constructor | done]. Qed.

Lemma safe_call (c : cmd) :
  (∀ r, P (Event c r)) → (∀ e, X (External e)) → safe P X (call (S := S) c).
Proof.
  intros HP HX s. apply triple_call; intros x; (split; [by repeat constructor |]).
  - intros e [= <-]. apply HX.
  - done.
Qed.

Lemma safe_get_state : safe P X (get_state (S := S)).
Proof. intros s. apply triple_get_state. split; [constructor | done]. Qed.

Lemma safe_modify (f : S → S) : safe P X (modify f).
Proof. intros s. apply triple_modify. split; [constructor | done]. Qed.

Lemma safe_bind {A B} (m : M S A) (f : A → M S B) :
  safe P X m → (∀ a, safe P X (f a)) → safe P X (mbind m f).
Proof.
  intros Hm Hf s. eapply triple_seq; [apply Hm |].
  intros [e | a] s' t [Ht Hr].
  { split; [done |]. intros e' [= <-]. by apply Hr. }
  eapply triple_mono; [| apply Hf]. intros r s'' t' [Ht' Hr'].
  split; [by apply Forall_app | done].
Qed.

Lemma safe_when (c : bool) (body : M S unit) :
  (c = true → safe P X body) → safe P X (when c body).
Proof. destruct c; simpl; [auto | intros _; apply safe_ret]. Qed.

Lemma safe_for_each {Y} (l : list Y) (body : Y → M S unit) :
  (∀ y, safe P X (body y)) → safe P X (for_each l body).
Proof.
  intros Hbody. induction l as [| y l IH]; simpl.
  - apply safe_ret.
  - apply safe_bind; [apply Hbody | intros _; apply IH].
Qed.

Lemma safe_if {A} (c : bool) (m1 m2 : M S A) :
  (c = true → safe P X m1) → (c = false → safe P X m2) →
  safe P X (if c then m1 else m2).
Proof. destruct c; auto. Qed.

End Safe.

Lemma safe_construct {S} P X (init : M SeleniumMiddleware unit) :
  safe P X init → safe P X (construct (S := S) init).
Proof.
  intros Hinit s. unfold triple, construct. apply wp_pbind.
  eapply wp_mono; [| apply (Hinit {| driver := None |})].
  intros [[e | []] self] t [Ht Hr]; simpl; rewrite app_nil_r; split; try done.
  intros e' [= <-]. by apply Hr.
Qed.

Lemma safe_run {S A} P X (m : M S A) (E : env) (s : S) (w : world E) :
  safe P X m →
  Forall P (trace (run E (m s) w)) ∧ ∀ e, (value (run E (m s) w)).1 = inl e → X e.
Proof. intros Hm. exact (triple_run E m s _ w (Hm s)). Qed.

Lemma safe_trace {S A} P X (m : M S A) (E : env) (s : S) (w : world E) :
  safe P X m → Forall P (trace (run E (m s) w)).
Proof. intros Hm. by apply (safe_run P X m E s w). Qed.

(** Safety by structure; [side] settles what is asked of commands and of
    the exceptions raised by dynamic checks. *)
Ltac safe_auto side :=
  repeat first
    [ apply safe_bind; [| intros ?]
    | apply safe_call
    | apply safe_when; intros ?
    | apply safe_for_each; intros ?
    | apply safe_lift
    | apply safe_if; intros ?
    | apply safe_ret
    | apply safe_raise
    | apply safe_modify
    | apply safe_get_state
    | apply safe_construct
    | progress cbv beta
    | match goal with
      | |- safe _ _ (match ?y with _ => _ end) => destruct y
      end
    | side ].

(** ** Per-request handling *)

Lemma run_add_cookies {S} (E : env) (d : handle) (cs : list (pystr * pyvalue))
    (s : S) (w w' : world E) :
  succeed E (cookie_commands d cs) w = Some w' →
  run E (for_each cs (λ '(cookie_name, cookie_value),
           call (AddCookie d (cookie_dict cookie_name cookie_value))) s) w
  = ((inr tt, s), w', cookie_events d cs).
Proof.
  revert w. induction cs as [| [n v] cs IH]; intros w Hcs; simpl in Hcs.
  - by injection Hcs as ->.
  - destruct (respond E (AddCookie d (cookie_dict n v)) w) as [[e | []] w1] eqn:Hc;
      [done |].
    cbn [for_each]. rewrite run_mbind. cbv beta iota.
    rewrite (run_call E (AddCookie d (cookie_dict n v))), Hc.
    cbn [value final trace fst snd]. by rewrite (IH _ Hcs).
Qed.

(** C2. A request that is not a [SeleniumRequest] is answered [None] without
    a single command to the foreign side: the world is the same, no event
    happens, and the request object is as it was. *)
Theorem process_request_not_selenium (E : env) self (r : Request) (w : world E) :
  process_request self (PlainRequest r) = Ret (inr None, PlainRequest r) ∧
  run E (process_request self (PlainRequest r)) w = ((inr None, PlainRequest r), w, []).
Proof. split; reflexivity. Qed.

(** C1. A [SeleniumRequest] with no cookies, no wait condition, no screenshot
    flag and no script: when the session accepts the navigation and hands out
    its page source and current URL, the run is exactly these three calls and
    the response carries the current URL, the UTF-8 encoding of the page
    source read, and the encoding name utf-8. *)
Theorem process_request_plain_page (E : env) self d r x (w w1 w2 w3 : world E)
    (page_source current_url : pystr) (bytes : list N) :
  driver self = Some d →
  cookies r = [] → wait_until x = None → screenshot x = false → script x = None →
  respond E (Get d (url r)) w = (inr tt, w1) →
  respond E (PageSource d) w1 = (inr page_source, w2) →
  utf8_encode page_source = Some bytes →
  respond E (CurrentUrl d) w2 = (inr current_url, w3) →
  let request := meta_set (lit "driver") (Ref d) (SeleniumRequest r x) in
  run E (process_request self (SeleniumRequest r x)) w =
    ((inr (Some {| response_url := current_url; body := bytes;
                   encoding := lit "utf-8"; response_request := request |}),
      request), w3,
     [Event (Get d (url r)) (inr tt);
      Event (PageSource d) (inr page_source);
      Event (CurrentUrl d) (inr current_url)]).
Proof.
  intros Hd Hc Hw Hs Hsc Hget Hsrc Henc Hurl request.
  unfold process_request, self_driver, str_encode.
  cbn. rewrite Hd, Hc, Hw, Hs, Hsc. cbn. rewrite Hget. cbn. rewrite Hsrc. cbn.
  rewrite Henc. cbn. rewrite Hurl. reflexivity.
Qed.

Lemma process_request_plain_page_witness :
  let r := {| url := lit "http://example.com/caf" ++ [233]; cookies := []; meta := ∅ |} in
  let x := {| wait_time := PNone; wait_until := None; screenshot := false;
              script := None |} in
  let request := meta_set (lit "driver") (Ref 0%nat) (SeleniumRequest r x) in
  run Scripted.browser (process_request {| driver := Some 0%nat |} (SeleniumRequest r x))
    Scripted.started =
    ((inr (Some {| response_url := lit "http://example.com/caf" ++ [233];
                   body := lit "<html>http://example.com/caf" ++ [195; 169] ++ lit "</html>";
                   encoding := lit "utf-8"; response_request := request |}),
      request),
     {| Scripted.fresh := 1%nat; Scripted.arguments := [];
        Scripted.capabilities := [];
        Scripted.location := lit "http://example.com/caf" ++ [233];
        Scripted.jar := []; Scripted.clock := 0%nat; Scripted.timeouts := [];
        Scripted.closed := false |},
     [Event (Get 0%nat (lit "http://example.com/caf" ++ [233])) (inr tt);
      Event (PageSource 0%nat)
        (inr (lit "<html>" ++ (lit "http://example.com/caf" ++ [233]) ++ lit "</html>"));
      Event (CurrentUrl 0%nat) (inr (lit "http://example.com/caf" ++ [233]))]).
Proof.
  intros r x request.
  eapply (process_request_plain_page Scripted.browser {| driver := Some 0%nat |} 0%nat r x
            Scripted.started); reflexivity.
Defined.

(** C5. On a [SeleniumRequest], when the session accepts the navigation and
    each cookie, the run starts with the navigation to the request's URL,
    goes on with one [add_cookie] per item of the cookie dict, in its order
    and as a name/value dict, and neither navigates nor touches the cookies
    afterwards. *)
Theorem process_request_injects_cookies (E : env) self d r x (w w1 : world E) :
  driver self = Some d →
  succeed E (Get d (url r) :: cookie_commands d (cookies r)) w = Some w1 →
  ∃ rest,
    trace (run E (process_request self (SeleniumRequest r x)) w) =
      Event (Get d (url r)) (inr tt) :: cookie_events d (cookies r) ++ rest ∧
    Forall (λ e, navigates_or_injects (command e) = false) rest.
Proof.
  intros Hd Hsucc. simpl in Hsucc.
  destruct (respond E (Get d (url r)) w) as [[e | []] w0] eqn:Hget; [done |].
  unfold process_request, self_driver.
  run_step. rewrite run_get_state. cbn [value final trace fst snd].
  run_step. rewrite Hd, run_ret. cbn [value final trace fst snd].
  run_step. rewrite (run_call E (Get d (url r))), Hget. cbn [value final trace fst snd].
  run_step. rewrite (run_add_cookies E d _ _ _ _ Hsucc). cbn [value final trace fst snd].
  eexists. split; [reflexivity |].
  eapply safe_trace with (X := λ _, True).
  safe_auto ltac:(done).
Qed.

Lemma process_request_injects_cookies_witness :
  let r := {| url := lit "http://example.com/";
              cookies := [(lit "a", PStr (lit "1")); (lit "b", PStr (lit "2"))];
              meta := ∅ |} in
  let x := {| wait_time := PNone; wait_until := None; screenshot := false;
              script := None |} in
  let o := run Scripted.browser
             (process_request {| driver := Some 0%nat |} (SeleniumRequest r x))
             Scripted.started in
  (∃ rest,
     trace o =
       Event (Get 0%nat (url r)) (inr tt) :: cookie_events 0%nat (cookies r) ++ rest ∧
     Forall (λ e, navigates_or_injects (command e) = false) rest) ∧
  Scripted.jar (final o) = [(lit "a", PStr (lit "1")); (lit "b", PStr (lit "2"))].
Proof.
  intros r x o. split; [| reflexivity].
  eapply (process_request_injects_cookies Scripted.browser {| driver := Some 0%nat |}
            0%nat r x Scripted.started); reflexivity.
Defined.

(** C3. On a [SeleniumRequest] with a wait condition, when the navigation and
    the cookies went through and [until] gives up with a
    [TimeoutException], [process_request] raises that exception: there is no
    response, the request object is untouched, and the wait that timed out is
    the last thing asked of the session (nothing is retried). *)
Theorem process_request_wait_timeout (E : env) self d r x method wait
    (w w1 w2 w3 : world E) :
  driver self = Some d →
  wait_until x = Some method →
  succeed E (Get d (url r) :: cookie_commands d (cookies r)) w = Some w1 →
  respond E (WebDriverWait d (wait_time x)) w1 = (inr wait, w2) →
  respond E (Until wait method) w2 = (inl TimeoutException, w3) →
  run E (process_request self (SeleniumRequest r x)) w =
    ((inl (External TimeoutException), SeleniumRequest r x), w3,
     Event (Get d (url r)) (inr tt) :: cookie_events d (cookies r) ++
     [Event (WebDriverWait d (wait_time x)) (inr wait);
      Event (Until wait method) (inl TimeoutException)]).
Proof.
  intros Hd Hm Hsucc Hwait Htimeout. simpl in Hsucc.
  destruct (respond E (Get d (url r)) w) as [[e | []] w0] eqn:Hget; [done |].
  unfold process_request, self_driver.
  run_step. rewrite run_get_state. cbn [value final trace fst snd].
  run_step. rewrite Hd, run_ret. cbn [value final trace fst snd].
  run_step. rewrite (run_call E (Get d (url r))), Hget. cbn [value final trace fst snd].
  run_step. rewrite (run_add_cookies E d _ _ _ _ Hsucc). cbn [value final trace fst snd].
  rewrite Hm.
  run_step. run_step. run_step.
  rewrite (run_call E (WebDriverWait d (wait_time x))), Hwait.
  cbn [value final trace fst snd].
  run_step. rewrite (run_call E (Until wait method)), Htimeout.
  reflexivity.
Qed.

Lemma process_request_wait_timeout_witness :
  let r := {| url := lit "http://example.com/";
              cookies := [(lit "a", PStr (lit "1"))]; meta := ∅ |} in
  let x := {| wait_time := PInt 2; wait_until := Some 5%nat; screenshot := true;
              script := Some (lit "window.scrollTo(0, 0)") |} in
  (value (run Scripted.browser
            (process_request {| driver := Some 0%nat |} (SeleniumRequest r x))
            Scripted.started)).1 = inl (External TimeoutException).
Proof.
  intros r x.
  erewrite (process_request_wait_timeout Scripted.browser {| driver := Some 0%nat |}
              0%nat r x 5%nat 1%nat Scripted.started); reflexivity.
Defined.

(** ** Initialisation *)

Lemma construction_app t t' :
  construction (t ++ t') = construction t ++ construction t'.
Proof. apply List.filter_app. Qed.

Lemma added_app t t' : added (t ++ t') = added t ++ added t'.
Proof. apply omap_app. Qed.

Lemma quiet_trace t : Forall quiet t → construction t = [] ∧ added t = [].
Proof.
  induction 1 as [| e t [Hc Ha] _ [IHc IHa]]; [done |].
  unfold construction, added in *. simpl. by rewrite Hc, Ha.
Qed.

Lemma quiet_triple {S A} (m : M S A) (s : S) :
  safe quiet any_exn m →
  triple m s (λ _ _ t, construction t = [] ∧ added t = []).
Proof.
  intros Hm. eapply triple_mono; [| apply Hm].
  intros r s' t [Ht _]. by apply quiet_trace.
Qed.

Ltac quiet_side :=
  idtac;
  match goal with
  | |- ∀ r, quiet (Event _ r) => intros ?; split; reflexivity
  | |- ∀ e, any_exn _ => done
  | |- ∀ e, _ → any_exn _ => done
  | |- any_exn _ => done
  end.

(** One turn of the loop over the arguments. *)
Lemma add_driver_argument_spec o ua x (s : SeleniumMiddleware) :
  triple (add_driver_argument o ua x) s (λ r _ t,
    construction t = [] ∧
    (r = inr tt → ∃ a, x = PStr a ∧ added t = [(o, effective_argument ua a)])).
Proof.
  unfold add_driver_argument. triple_step. triple_step.
  destruct x as [| b | z | a | l0 | d]; cbn [str_lower];
    try (split; [done | discriminate]).
  triple_step.
  - split; [done | discriminate].
  - split; [done |]. intros _. exists a. split; [done |].
    unfold added, effective_argument. simpl.
    by destruct (startswith _ _), (truthy ua).
Qed.

(** The loop: if it ends without an exception, every item was a [str] and
    was added in turn, in its effective form. *)
Lemma add_arguments_spec o ua (l : list pyvalue) (s : SeleniumMiddleware) :
  triple (for_each l (add_driver_argument o ua)) s (λ r _ t,
    construction t = [] ∧
    (r = inr tt → ∃ arguments, l = PStr <$> arguments ∧
       added t = (λ a, (o, effective_argument ua a)) <$> arguments)).
Proof.
  revert s. induction l as [| x l IH]; intros s.
  - apply triple_ret. split; [done |]. intros _. by exists [].
  - cbn [for_each]. eapply triple_seq; [apply add_driver_argument_spec |].
    intros [e | []] s' t [Hc Ha]; [split; [done | discriminate] |].
    eapply triple_mono; [| apply IH]. intros r s'' t' [Hc' Ha']. cbv beta.
    rewrite construction_app, added_app, Hc, Hc'. split; [done |].
    intros Hr. destruct (Ha eq_refl) as (a & -> & ->).
    destruct (Ha' Hr) as (arguments & -> & ->). by exists (a :: arguments).
Qed.

(** What [__init__] has done when it returns. *)
Lemma init_success name path bp ce args caps uw wo ua self :
  triple (__init__ name path bp ce args caps uw wo ua) self (λ r self' t,
    r = inr tt → initialised name path ce args uw wo ua self' t).
Proof.
  unfold __init__.
  do 5 (triple_step; triple_step; [discriminate |]).
  eapply triple_seq with (R := λ _ _ t, construction t = [] ∧ added t = []).
  { apply quiet_triple. safe_auto ltac:(quiet_side). }
  intros [e | []] s1 t1 [Hc1 Ha1]; [discriminate |].
  triple_step. triple_step.
  destruct (py_iter args) as [e | arguments] eqn:Hargs; [discriminate |].
  eapply triple_seq; [apply add_arguments_spec |].
  intros [e | []] s2 t2 [Hc2 Ha2]; [discriminate |].
  destruct (Ha2 eq_refl) as (l & -> & Ha2'). clear Ha2.
  eapply triple_seq with (R := λ _ _ t, construction t = [] ∧ added t = []).
  { apply quiet_triple. safe_auto ltac:(quiet_side). }
  intros [e | []] s3 t3 [Hc3 Ha3]; [discriminate |].
  assert (Hfinish : ∀ self' t' evs,
    construction t' = evs → added t' = [] →
    (if negb (is_None path) then
      if is_True uw then
        ∃ name' m3 k3 d,
          name = PStr name' ∧ evs = wire_events name' path wo x3 m3 k3 d ∧
          self' = {| driver := Some d |}
      else ∃ d, evs = standard_events name path x0 x3 d ∧
                self' = {| driver := Some d |}
    else if negb (is_None ce) then
      ∃ wd capabilities remote d,
        evs = remote_events ce x3 wd capabilities remote d ∧
        self' = {| driver := Some d |}
    else evs = []) →
    initialised name path ce args uw wo ua self'
      ([Event (ImportModule ([FLit (lit "selenium.webdriver."); FVal name]
                               ++ flit ".webdriver")) (inr x)] ++
       [Event (GetAttr x (flit "WebDriver")) (inr x0)] ++
       [Event (ImportModule ([FLit (lit "selenium.webdriver."); FVal name]
                               ++ flit ".options")) (inr x1)] ++
       [Event (GetAttr x1 (flit "Options")) (inr x2)] ++
       [Event (Instantiate x2 []) (inr x3)] ++ t1 ++ [] ++ t2 ++ t3 ++ t')).
  { intros self' t' evs Hc Ha Hbranch.
    exists x, x0, x1, x2, x3, l, evs. split; [done |].
    rewrite !added_app, !construction_app, Hc1, Hc2, Hc3, Ha1, Ha2', Ha3, Hc, Ha.
    split; [by rewrite app_nil_r |]. split; [done |]. exact Hbranch. }
  destruct (is_None path) eqn:Hp; cbn [negb] in *; cbv iota in *.
  - destruct (is_None ce) eqn:Hce; cbn [negb] in *; cbv iota in *.
    + triple_step. intros _. by apply (Hfinish _ _ []).
    + do 4 (triple_step; triple_step; [discriminate |]).
      triple_step. intros _.
      eapply Hfinish; [reflexivity | reflexivity |]. by eexists _, _, _, _.
  - triple_step. destruct (is_True uw) eqn:Huw; cbv iota in *.
    + triple_step. triple_step; [discriminate |].
      triple_step. triple_step.
      destruct name as [| | | name' | |]; cbn [str_capitalize]; try discriminate.
      do 2 (triple_step; triple_step; [discriminate |]).
      triple_step. triple_step. triple_step; [discriminate |].
      triple_step; [discriminate |]. intros _.
      eapply Hfinish; [reflexivity | reflexivity |]. by eexists _, _, _, _.
    + triple_step. triple_step; [discriminate |].
      triple_step. triple_step. triple_step; [discriminate |].
      triple_step; [discriminate |]. intros _.
      eapply Hfinish; [reflexivity | reflexivity |]. by eexists.
Qed.

Lemma init_run (E : env) name path bp ce args caps uw wo ua self (w : world E) :
  (value (run E (__init__ name path bp ce args caps uw wo ua self) w)).1 = inr tt →
  initialised name path ce args uw wo ua
    (value (run E (__init__ name path bp ce args caps uw wo ua self) w)).2
    (trace (run E (__init__ name path bp ce args caps uw wo ua self) w)).
Proof. apply (triple_run E _ self _ w (init_success _ _ _ _ _ _ _ _ _ _)). Qed.

Lemma is_None_true v : is_None v = true ↔ v = PNone.
Proof. by destruct v. Qed.

Lemma is_None_false v : is_None v = false ↔ v ≠ PNone.
Proof. by destruct v. Qed.

Lemma is_True_true v : is_True v = true ↔ v = PBool true.
Proof. destruct v as [| [] | | | |]; simpl; split; congruence. Qed.

Lemma is_True_false v : is_True v = false ↔ v ≠ PBool true.
Proof. destruct v as [| [] | | | |]; simpl; split; congruence. Qed.

Lemma from_crawler_configured crawler :
  ¬ missing_configuration crawler →
  from_crawler crawler =
    (middleware ← construct (instantiate_from crawler);
     modify (signals_connect (bound_spider_closed middleware) signals_spider_closed);;
     mret middleware)%py crawler.
Proof.
  intros Hmiss. unfold missing_configuration, unset in Hmiss.
  unfold from_crawler, instantiate_from.
  change (mbind get_state ?f crawler) with (f crawler crawler). cbv beta zeta.
  destruct (is_None (settings_get crawler "SELENIUM_DRIVER_NAME")) eqn:Hn.
  { apply is_None_true in Hn. tauto. }
  destruct (is_None (settings_get crawler "SELENIUM_DRIVER_EXECUTABLE_PATH")) eqn:Hp;
    [destruct (is_None (settings_get crawler "SELENIUM_COMMAND_EXECUTOR")) eqn:Hc |];
    cbn [andb]; try reflexivity.
  apply is_None_true in Hp, Hc. tauto.
Qed.

Lemma run_construct {S} (E : env) (init : M SeleniumMiddleware unit) (s : S) (w : world E) :
  run E (construct init s) w =
    (match (value (run E (init {| driver := None |}) w)).1 with
     | inl e => (inl e, s)
     | inr _ => (inr (value (run E (init {| driver := None |}) w)).2, s)
     end,
     final (run E (init {| driver := None |}) w),
     trace (run E (init {| driver := None |}) w)).
Proof.
  unfold construct. rewrite run_pbind. unfold value, final, trace.
  destruct (run E (init {| driver := None |}) w) as [[[[e | []] self] w'] t]; simpl;
    by rewrite app_nil_r.
Qed.

Lemma run_from_crawler (E : env) crawler (w : world E) :
  ¬ missing_configuration crawler →
  run E (from_crawler crawler) w =
    (match (value (run E (instantiate_from crawler {| driver := None |}) w)).1 with
     | inl e => (inl e, crawler)
     | inr _ =>
         let middleware := (value (run E (instantiate_from crawler {| driver := None |}) w)).2 in
         (inr middleware,
          signals_connect (bound_spider_closed middleware) signals_spider_closed crawler)
     end,
     final (run E (instantiate_from crawler {| driver := None |}) w),
     trace (run E (instantiate_from crawler {| driver := None |}) w)).
Proof.
  intros Hmiss. rewrite (from_crawler_configured _ Hmiss).
  rewrite run_mbind, run_construct. cbn [value final trace fst snd].
  destruct (run E (instantiate_from crawler {| driver := None |}) w)
    as [[[[e | []] self] w'] t]; cbn [value final trace fst snd]; [done |].
  cbn. by rewrite app_nil_r.
Qed.

Lemma from_crawler_missing crawler :
  missing_configuration crawler →
  ∃ msg, from_crawler crawler = Ret (inl (NotConfigured msg), crawler).
Proof.
  unfold missing_configuration, unset, from_crawler.
  change (mbind get_state ?f crawler) with (f crawler crawler). cbv beta zeta.
  intros [Hn | [Hp Hc]].
  - rewrite Hn. by eexists.
  - rewrite Hp, Hc.
    destruct (is_None (settings_get crawler "SELENIUM_DRIVER_NAME")); by eexists.
Qed.

Lemma missing_configuration_dec crawler :
  missing_configuration crawler ∨ ¬ missing_configuration crawler.
Proof.
  unfold missing_configuration, unset.
  destruct (settings_get crawler "SELENIUM_DRIVER_NAME");
    destruct (settings_get crawler "SELENIUM_DRIVER_EXECUTABLE_PATH");
    destruct (settings_get crawler "SELENIUM_COMMAND_EXECUTOR");
    first [by left; left | by left; right | right; intros [? | [? ?]]; done].
Qed.

Lemma py_iter_exn v e : py_iter v = inl e → e = TypeError.
Proof. destruct v; simpl; congruence. Qed.

Lemma py_items_exn v e : py_items v = inl e → e = AttributeError.
Proof. destruct v; simpl; congruence. Qed.

Lemma str_lower_exn v e : str_lower v = inl e → e = AttributeError.
Proof. destruct v; simpl; congruence. Qed.

Lemma str_capitalize_exn v e : str_capitalize v = inl e → e = AttributeError.
Proof. destruct v; simpl; congruence. Qed.

Ltac configured_side :=
  idtac;
  match goal with
  | |- ∀ e, _ = inl e → configured e =>
      let H := fresh in
      intros ? H;
      first [ apply py_iter_exn in H | apply py_items_exn in H
            | apply str_lower_exn in H | apply str_capitalize_exn in H ];
      subst; intros ?; discriminate
  | |- ∀ e, configured (External e) => intros ? ?; discriminate
  | |- ∀ r, True => done
  end.

(** [__init__] raises no [NotConfigured]. *)
Lemma init_configured name path bp ce args caps uw wo ua :
  safe (λ _, True) configured (__init__ name path bp ce args caps uw wo ua).
Proof. unfold __init__, add_driver_argument. safe_auto ltac:(configured_side). Qed.

(** C4. [from_crawler] raises [NotConfigured] exactly when the driver name is
    unset, or the executable path and the command executor are both unset; it
    does so before anything else happens; and otherwise it goes on to
    instantiate the middleware from the settings and connect its
    [spider_closed]. *)
Theorem from_crawler_not_configured (E : env) crawler (w : world E) :
  ((∃ msg, (value (run E (from_crawler crawler) w)).1 = inl (NotConfigured msg)) ↔
   missing_configuration crawler) ∧
  (missing_configuration crawler →
   ∃ msg, from_crawler crawler = Ret (inl (NotConfigured msg), crawler)) ∧
  (¬ missing_configuration crawler →
   from_crawler crawler =
     (middleware ← construct (instantiate_from crawler);
      modify (signals_connect (bound_spider_closed middleware) signals_spider_closed);;
      mret middleware)%py crawler).
Proof.
  split; [| split; [apply from_crawler_missing | apply from_crawler_configured]].
  split.
  - intros [msg Hmsg].
    destruct (missing_configuration_dec crawler) as [Hmiss | Hconf]; [done |].
    exfalso. rewrite (run_from_crawler E crawler w Hconf) in Hmsg.
    cbn [value fst snd] in Hmsg.
    pose proof (safe_run _ _ (instantiate_from crawler) E {| driver := None |} w
                  (init_configured _ _ _ _ _ _ _ _ _)) as [_ Hexn].
    destruct (value (run E (instantiate_from crawler {| driver := None |}) w)).1
      as [e | []] eqn:Hv; [| done].
    injection Hmsg as ->. by apply (Hexn _ eq_refl msg).
  - intros Hmiss. destruct (from_crawler_missing crawler Hmiss) as [msg ->].
    by exists msg.
Qed.

Lemma fmap_PStr_inj (l l' : list pystr) : PStr <$> l = PStr <$> l' → l = l'.
Proof.
  revert l'. induction l as [| a l IH]; intros [| a' l']; simpl; try done.
  intros [= -> Hl]. f_equal. by apply IH.
Qed.

(** C7. When [__init__] is given a list of strings as driver arguments and
    returns, the calls of [add_argument] it made on the options object it
    instantiated are, in the order of the list, one per argument: the
    user-agent override for an argument that, lowercased, starts with
    [user-agent] when an override is configured, and the argument itself
    otherwise. *)
Theorem init_adds_arguments (E : env) name path bp ce (arguments : list pystr)
    caps uw wo ua self (w : world E) :
  (value (run E (__init__ name path bp ce (PList (PStr <$> arguments)) caps uw wo ua
                   self) w)).1 = inr tt →
  ∃ m1 k1 m2 k2 o evs,
    construction (trace (run E (__init__ name path bp ce (PList (PStr <$> arguments))
                                  caps uw wo ua self) w)) =
      prelude_events name m1 k1 m2 k2 o ++ evs ∧
    added (trace (run E (__init__ name path bp ce (PList (PStr <$> arguments))
                           caps uw wo ua self) w)) =
      (λ a, (o, effective_argument ua a)) <$> arguments.
Proof.
  intros Hok. destruct (init_run E _ _ _ _ _ _ _ _ _ _ w Hok)
    as (m1 & k1 & m2 & k2 & o & l & evs & Hl & Ha & Hc & _).
  exists m1, k1, m2, k2, o, evs. split; [done |].
  simpl in Hl. injection Hl as Hl. apply fmap_PStr_inj in Hl. by subst.
Qed.

Lemma init_adds_arguments_witness :
  ∃ o,
    added (trace (run Scripted.browser
                    (__init__ (PStr (lit "chrome")) Scripted.chromedriver PNone PNone
                       (PList (PStr <$> Scripted.sample_arguments)) PNone PNone PNone
                       Scripted.sample_user_agent {| driver := None |})
                    Scripted.initial)) =
      [(o, PStr (lit "--headless"));
       (o, Scripted.sample_user_agent);
       (o, PStr (lit "--user-agent-stylesheet"))].
Proof.
  destruct (init_adds_arguments Scripted.browser (PStr (lit "chrome"))
              Scripted.chromedriver PNone PNone Scripted.sample_arguments PNone PNone
              PNone Scripted.sample_user_agent {| driver := None |} Scripted.initial)
    as (m1 & k1 & m2 & k2 & o & evs & _ & Ha); [reflexivity |].
  exists o. exact Ha.
Defined.

(** C6. With no executable path and a command executor, [__init__] is the
    same method whatever the wire toggle and the wire options are; when it
    returns, what it built is the prelude and the remote driver:
    [webdriver.Remote] on the command executor and the capabilities of the
    options, bound to [self.driver]. *)
Theorem remote_ignores_wire (E : env) name bp ce args caps uw wo ua self (w : world E) :
  ce ≠ PNone →
  (∀ uw' wo',
     __init__ name PNone bp ce args caps uw' wo' ua =
     __init__ name PNone bp ce args caps uw wo ua) ∧
  ((value (run E (__init__ name PNone bp ce args caps uw wo ua self) w)).1 = inr tt →
   ∃ m1 k1 m2 k2 o wd capabilities remote d,
     construction (trace (run E (__init__ name PNone bp ce args caps uw wo ua self) w)) =
       prelude_events name m1 k1 m2 k2 o ++
       remote_events ce o wd capabilities remote d ∧
     (value (run E (__init__ name PNone bp ce args caps uw wo ua self) w)).2 =
       {| driver := Some d |}).
Proof.
  intros Hce%is_None_false. split.
  - intros uw' wo'. unfold __init__. cbn [is_None negb]. reflexivity.
  - intros Hok. destruct (init_run E _ _ _ _ _ _ _ _ _ _ w Hok)
      as (m1 & k1 & m2 & k2 & o & l & evs & _ & _ & Hc & Hbranch).
    cbn [is_None negb] in Hbranch. rewrite Hce in Hbranch. cbn [negb] in Hbranch.
    destruct Hbranch as (wd & capabilities & remote & d & -> & Hself).
    by exists m1, k1, m2, k2, o, wd, capabilities, remote, d.
Qed.

Lemma remote_ignores_wire_witness :
  run Scripted.browser
    (__init__ (PStr (lit "firefox")) PNone PNone Scripted.hub (PList []) PNone
       (PBool true) (PDict [(lit "port", PInt 8080)]) PNone {| driver := None |})
    Scripted.initial =
  run Scripted.browser
    (__init__ (PStr (lit "firefox")) PNone PNone Scripted.hub (PList []) PNone
       PNone PNone PNone {| driver := None |})
    Scripted.initial ∧
  ∃ m1 k1 m2 k2 o wd capabilities remote d,
    construction (trace (run Scripted.browser
                           (__init__ (PStr (lit "firefox")) PNone PNone Scripted.hub
                              (PList []) PNone (PBool true)
                              (PDict [(lit "port", PInt 8080)]) PNone
                              {| driver := None |})
                           Scripted.initial)) =
      prelude_events (PStr (lit "firefox")) m1 k1 m2 k2 o ++
      remote_events Scripted.hub o wd capabilities remote d.
Proof.
  destruct (remote_ignores_wire Scripted.browser (PStr (lit "firefox")) PNone
              Scripted.hub (PList []) PNone (PBool true)
              (PDict [(lit "port", PInt 8080)]) PNone {| driver := None |}
              Scripted.initial) as [Hsame Hbuilt]; [discriminate |].
  split.
  - by rewrite (Hsame PNone PNone).
  - destruct (Hbuilt eq_refl)
      as (m1 & k1 & m2 & k2 & o & wd & capabilities & remote & d & Hc & _).
    by exists m1, k1, m2, k2, o, wd, capabilities, remote, d.
Defined.

(** C9. With an executable path and a command executor both given,
    [__init__] is the same method whatever the command executor is; when it
    returns, what it built is the prelude and a driver of the local branch,
    standard or wire, instantiated on the executable path and bound to
    [self.driver]. *)
Theorem local_path_takes_precedence (E : env) name path bp ce args caps uw wo ua self
    (w : world E) :
  path ≠ PNone → ce ≠ PNone →
  (∀ ce', __init__ name path bp ce' args caps uw wo ua =
          __init__ name path bp ce args caps uw wo ua) ∧
  ((value (run E (__init__ name path bp ce args caps uw wo ua self) w)).1 = inr tt →
   ∃ m1 k1 m2 k2 o d evs,
     construction (trace (run E (__init__ name path bp ce args caps uw wo ua self) w)) =
       prelude_events name m1 k1 m2 k2 o ++ evs ∧
     (evs = standard_events name path k1 o d ∨
      ∃ name' m3 k3, name = PStr name' ∧ evs = wire_events name' path wo o m3 k3 d) ∧
     (value (run E (__init__ name path bp ce args caps uw wo ua self) w)).2 =
       {| driver := Some d |}).
Proof.
  intros Hp%is_None_false _. split.
  - intros ce'. unfold __init__. rewrite Hp. reflexivity.
  - intros Hok. destruct (init_run E _ _ _ _ _ _ _ _ _ _ w Hok)
      as (m1 & k1 & m2 & k2 & o & l & evs & _ & _ & Hc & Hbranch).
    rewrite Hp in Hbranch. cbn [negb] in Hbranch.
    destruct (is_True uw).
    + destruct Hbranch as (name' & m3 & k3 & d & -> & -> & Hself).
      exists m1, k1, m2, k2, o, d, (wire_events name' path wo o m3 k3 d).
      split; [done |]. split; [| done]. right. by exists name', m3, k3.
    + destruct Hbranch as (d & -> & Hself).
      exists m1, k1, m2, k2, o, d, (standard_events name path k1 o d).
      split; [done |]. split; [by left | done].
Qed.

Lemma local_path_takes_precedence_witness :
  run Scripted.browser
    (__init__ (PStr (lit "chrome")) Scripted.chromedriver PNone PNone (PList []) PNone
       PNone PNone PNone {| driver := None |})
    Scripted.initial =
  run Scripted.browser
    (__init__ (PStr (lit "chrome")) Scripted.chromedriver PNone Scripted.hub (PList [])
       PNone PNone PNone PNone {| driver := None |})
    Scripted.initial ∧
  ∃ m1 k1 m2 k2 o d,
    construction (trace (run Scripted.browser
                           (__init__ (PStr (lit "chrome")) Scripted.chromedriver PNone
                              Scripted.hub (PList []) PNone PNone PNone PNone
                              {| driver := None |})
                           Scripted.initial)) =
      prelude_events (PStr (lit "chrome")) m1 k1 m2 k2 o ++
      standard_events (PStr (lit "chrome")) Scripted.chromedriver k1 o d.
Proof.
  destruct (local_path_takes_precedence Scripted.browser (PStr (lit "chrome"))
              Scripted.chromedriver PNone Scripted.hub (PList []) PNone PNone PNone
              PNone {| driver := None |} Scripted.initial) as [Hsame Hbuilt];
    [discriminate | discriminate |].
  split.
  - by rewrite (Hsame PNone).
  - destruct (Hbuilt eq_refl) as (m1 & k1 & m2 & k2 & o & d & evs & Hc & Hevs & _).
    destruct Hevs as [-> | (name' & m3 & k3 & _ & ->)].
    + by exists m1, k1, m2, k2, o, d.
    + vm_compute in Hc. discriminate.
Defined.

(** What [from_crawler] built when the wire setting is absent and an
    executable path is set: the toggle it passes is [None], and the driver is
    the standard one. *)
Lemma from_crawler_without_wire_setting (E : env) crawler (w : world E) middleware :
  settings crawler !! lit "SELENIUM_DRIVER_USE_WIRE" = None →
  ¬ unset crawler "SELENIUM_DRIVER_EXECUTABLE_PATH" →
  (value (run E (from_crawler crawler) w)).1 = inr middleware →
  ∃ m1 k1 m2 k2 o d,
    middleware = {| driver := Some d |} ∧
    construction (trace (run E (from_crawler crawler) w)) =
      prelude_events (settings_get crawler "SELENIUM_DRIVER_NAME") m1 k1 m2 k2 o ++
      standard_events (settings_get crawler "SELENIUM_DRIVER_NAME")
        (settings_get crawler "SELENIUM_DRIVER_EXECUTABLE_PATH") k1 o d.
Proof.
  intros Habsent Hpath Hok.
  assert (Hconf : ¬ missing_configuration crawler).
  { intros Hmiss. destruct (from_crawler_missing crawler Hmiss) as [msg Hmsg].
    by rewrite Hmsg in Hok. }
  rewrite (run_from_crawler E crawler w Hconf) in Hok |- *.
  pose proof (init_run E
    (settings_get crawler "SELENIUM_DRIVER_NAME")
    (settings_get crawler "SELENIUM_DRIVER_EXECUTABLE_PATH")
    (settings_get crawler "SELENIUM_BROWSER_EXECUTABLE_PATH")
    (settings_get crawler "SELENIUM_COMMAND_EXECUTOR")
    (settings_get crawler "SELENIUM_DRIVER_ARGUMENTS")
    (settings_get crawler "SELENIUM_DRIVER_DESIRED_CAPABILITIES")
    (settings_get crawler "SELENIUM_DRIVER_USE_WIRE")
    (settings_get crawler "SELENIUM_DRIVER_WIRE_OPTIONS")
    (settings_get crawler "SELENIUM_DRIVER_USER_AGENT")
    {| driver := None |} w) as Hinit.
  fold (instantiate_from crawler) in Hinit.
  destruct (run E (instantiate_from crawler {| driver := None |}) w)
    as [[[[e | []] self] w'] t]; unfold value, trace in *; simpl in Hok, Hinit |- *;
    [done |].
  injection Hok as <-.
  destruct (Hinit eq_refl) as (m1 & k1 & m2 & k2 & o & l & evs & _ & _ & Hc & Hbranch).
  apply is_None_false in Hpath. rewrite Hpath in Hbranch.
  assert (Hwire : settings_get crawler "SELENIUM_DRIVER_USE_WIRE" = PNone).
  { unfold settings_get. by rewrite Habsent. }
  rewrite Hwire in Hbranch. cbn [negb is_True] in Hbranch.
  destruct Hbranch as (d & -> & ->).
  by exists m1, k1, m2, k2, o, d.
Qed.

(** C10. With an executable path, when [__init__] returns: if the toggle is
    the boolean [True] it built the wire driver (the class named by the
    capitalized driver name, looked up in [seleniumwire.webdriver]); for any
    other value it built the standard driver (the class [WebDriver] of the
    prelude).  The declared default of the toggle is [True], but
    [from_crawler] passes [None] when the setting is absent, and the driver
    it builds then is the standard one. *)
Theorem wire_driver_iff_toggle_is_True (E : env) name path bp ce args caps uw wo ua self
    (w : world E) :
  path ≠ PNone →
  (value (run E (__init__ name path bp ce args caps uw wo ua self) w)).1 = inr tt →
  (∃ m1 k1 m2 k2 o d,
     (value (run E (__init__ name path bp ce args caps uw wo ua self) w)).2 =
       {| driver := Some d |} ∧
     (uw = PBool true →
      ∃ name' m3 k3,
        name = PStr name' ∧
        construction (trace (run E (__init__ name path bp ce args caps uw wo ua self) w)) =
          prelude_events name m1 k1 m2 k2 o ++ wire_events name' path wo o m3 k3 d) ∧
     (uw ≠ PBool true →
      construction (trace (run E (__init__ name path bp ce args caps uw wo ua self) w)) =
        prelude_events name m1 k1 m2 k2 o ++ standard_events name path k1 o d)) ∧
  default_driver_use_wire = PBool true ∧
  (∀ crawler (w0 : world E) middleware,
     settings crawler !! lit "SELENIUM_DRIVER_USE_WIRE" = None →
     ¬ unset crawler "SELENIUM_DRIVER_EXECUTABLE_PATH" →
     (value (run E (from_crawler crawler) w0)).1 = inr middleware →
     ∃ m1 k1 m2 k2 o d,
       middleware = {| driver := Some d |} ∧
       construction (trace (run E (from_crawler crawler) w0)) =
         prelude_events (settings_get crawler "SELENIUM_DRIVER_NAME") m1 k1 m2 k2 o ++
         standard_events (settings_get crawler "SELENIUM_DRIVER_NAME")
           (settings_get crawler "SELENIUM_DRIVER_EXECUTABLE_PATH") k1 o d).
Proof.
  intros Hp%is_None_false Hok.
  split; [| split; [done | apply from_crawler_without_wire_setting]].
  destruct (init_run E _ _ _ _ _ _ _ _ _ _ w Hok)
    as (m1 & k1 & m2 & k2 & o & l & evs & _ & _ & Hc & Hbranch).
  rewrite Hp in Hbranch. cbn [negb] in Hbranch.
  destruct (is_True uw) eqn:Huw.
  - destruct Hbranch as (name' & m3 & k3 & d & -> & -> & Hself).
    exists m1, k1, m2, k2, o, d. split; [done |]. split.
    + intros _. by exists name', m3, k3.
    + intros Hne. apply is_True_false in Hne. congruence.
  - destruct Hbranch as (d & -> & Hself).
    exists m1, k1, m2, k2, o, d. split; [done |]. split.
    + intros Heq%is_True_true. congruence.
    + done.
Qed.

Lemma wire_driver_iff_toggle_is_True_witness :
  (∃ m1 k1 m2 k2 o d m3 k3,
     construction (trace (run Scripted.browser
                            (__init__ (PStr (lit "chrome")) Scripted.chromedriver PNone
                               PNone (PList []) PNone (PBool true) PNone PNone
                               {| driver := None |})
                            Scripted.initial)) =
       prelude_events (PStr (lit "chrome")) m1 k1 m2 k2 o ++
       wire_events (lit "chrome") Scripted.chromedriver PNone o m3 k3 d) ∧
  (∃ m1 k1 m2 k2 o d,
     construction (trace (run Scripted.browser (from_crawler Scripted.local_crawler)
                            Scripted.initial)) =
       prelude_events (PStr (lit "chrome")) m1 k1 m2 k2 o ++
       standard_events (PStr (lit "chrome")) Scripted.chromedriver k1 o d).
Proof.
  destruct (wire_driver_iff_toggle_is_True Scripted.browser (PStr (lit "chrome"))
              Scripted.chromedriver PNone PNone (PList []) PNone (PBool true) PNone
              PNone {| driver := None |} Scripted.initial)
    as [(m1 & k1 & m2 & k2 & o & d & _ & Hwire & _) [_ Hcrawler]];
    [discriminate | reflexivity |].
  split.
  - destruct (Hwire eq_refl) as (name' & m3 & k3 & [= <-] & Hc).
    by exists m1, k1, m2, k2, o, d, m3, k3.
  - destruct (Hcrawler Scripted.local_crawler Scripted.initial {| driver := Some 5%nat |})
      as (m1' & k1' & m2' & k2' & o' & d' & _ & Hc); [reflexivity | discriminate | reflexivity |].
    by exists m1', k1', m2', k2', o', d'.
Defined.

(** ** Shutdown *)

Lemma process_request_builds_nothing self :
  safe (λ e, is_construction (command e) = false) any_exn (process_request self).
Proof.
  unfold process_request, self_driver.
  safe_auto ltac:(first [done | by intros []]).
Qed.

(** C8. After a successful [from_crawler], the middleware holds one driver
    and its [spider_closed] is connected to the [spider_closed] signal.
    Receiving the signal is one call, [quit], on that driver.  For a driver
    whose session is closed by [quit], and which answers navigation on a
    closed session with an error, every later [process_request] on a
    [SeleniumRequest] raises that error at its first step and returns no
    response; and [process_request] never builds another driver. *)
Theorem spider_closed_quits_driver (E : env) (closed : world E → handle → Prop)
    crawler (w0 : world E) self :
  (∀ d w w', respond E (Quit d) w = (inr tt, w') → closed w' d) →
  (∀ d u w, closed w d → ∃ e w', respond E (Get d u) w = (inl e, w')) →
  (value (run E (from_crawler crawler) w0)).1 = inr self →
  ∃ d,
    driver self = Some d ∧
    signals (value (run E (from_crawler crawler) w0)).2 =
      signals crawler ++ [(bound_spider_closed self, signals_spider_closed)] ∧
    (∀ (w1 w2 : world E), respond E (Quit d) w1 = (inr tt, w2) →
       run E (receive (bound_spider_closed self) tt) w1 =
         ((inr tt, tt), w2, [Event (Quit d) (inr tt)]) ∧
       closed w2 d) ∧
    (∀ (w3 : world E) r x, closed w3 d →
       ∃ e w4,
         run E (process_request self (SeleniumRequest r x)) w3 =
           ((inl (External e), SeleniumRequest r x), w4,
            [Event (Get d (url r)) (inl e)])) ∧
    (∀ rq (w1 : world E),
       Forall (λ e, is_construction (command e) = false)
         (trace (run E (process_request self rq) w1))).
Proof.
  intros Hquit Hclosed Hok.
  assert (Hconf : ¬ missing_configuration crawler).
  { intros Hmiss. destruct (from_crawler_missing crawler Hmiss) as [msg Hmsg].
    by rewrite Hmsg in Hok. }
  rewrite (run_from_crawler E crawler w0 Hconf) in Hok |- *.
  pose proof (init_run E
    (settings_get crawler "SELENIUM_DRIVER_NAME")
    (settings_get crawler "SELENIUM_DRIVER_EXECUTABLE_PATH")
    (settings_get crawler "SELENIUM_BROWSER_EXECUTABLE_PATH")
    (settings_get crawler "SELENIUM_COMMAND_EXECUTOR")
    (settings_get crawler "SELENIUM_DRIVER_ARGUMENTS")
    (settings_get crawler "SELENIUM_DRIVER_DESIRED_CAPABILITIES")
    (settings_get crawler "SELENIUM_DRIVER_USE_WIRE")
    (settings_get crawler "SELENIUM_DRIVER_WIRE_OPTIONS")
    (settings_get crawler "SELENIUM_DRIVER_USER_AGENT")
    {| driver := None |} w0) as Hinit.
  fold (instantiate_from crawler) in Hinit.
  destruct (run E (instantiate_from crawler {| driver := None |}) w0)
    as [[[[e | []] self'] w'] t]; unfold value, trace in *; simpl in Hok, Hinit |- *;
    [done |].
  injection Hok as <-.
  destruct (Hinit eq_refl) as (m1 & k1 & m2 & k2 & o & l & evs & _ & _ & _ & Hbranch).
  clear Hinit.
  assert (Hd : ∃ d, self' = {| driver := Some d |}).
  { unfold missing_configuration, unset in Hconf.
    destruct (is_None (settings_get crawler "SELENIUM_DRIVER_EXECUTABLE_PATH")) eqn:Hp;
      cbn [negb] in Hbranch.
    - destruct (is_None (settings_get crawler "SELENIUM_COMMAND_EXECUTOR")) eqn:Hce;
        cbn [negb] in Hbranch.
      + apply is_None_true in Hp, Hce. tauto.
      + destruct Hbranch as (_ & _ & _ & d & _ & ->). by exists d.
    - destruct (is_True (settings_get crawler "SELENIUM_DRIVER_USE_WIRE")).
      + destruct Hbranch as (_ & _ & _ & d & _ & _ & ->). by exists d.
      + destruct Hbranch as (d & _ & ->). by exists d. }
  destruct Hd as [d ->]. exists d. split; [done |]. split; [done |].
  split; [| split].
  - intros w1 w2 Hq. split; [| by eapply Hquit].
    unfold receive, spider_closed, self_driver. cbn. by rewrite Hq.
  - intros w3 r x Hc. destruct (Hclosed d (url r) w3 Hc) as (e & w4 & Hget).
    exists e, w4. unfold process_request, self_driver. cbn. by rewrite Hget.
  - intros rq w1. eapply safe_trace, process_request_builds_nothing.
Qed.

Lemma scripted_quit_closes (d : handle) (w w' : world Scripted.browser) :
  respond Scripted.browser (Quit d) w = (inr tt, w') → Scripted.closed w' = true.
Proof. simpl. destruct (Scripted.closed w); [done |]. by intros [= <-]. Qed.

Lemma scripted_closed_fails (d : handle) (u : pystr) (w : world Scripted.browser) :
  Scripted.closed w = true →
  ∃ e w', respond Scripted.browser (Get d u) w = (inl e, w').
Proof. intros Hc. simpl. rewrite Hc. by eexists _, _. Qed.

Lemma spider_closed_quits_driver_witness :
  let o := run Scripted.browser (from_crawler Scripted.local_crawler) Scripted.initial in
  let self := {| driver := Some 5%nat |} in
  signals (value o).2 = [(bound_spider_closed self, signals_spider_closed)] ∧
  let o' := run Scripted.browser (receive (bound_spider_closed self) tt) (final o) in
  trace o' = [Event (Quit 5%nat) (inr tt)] ∧
  ∀ r x, ∃ e,
    (value (run Scripted.browser (process_request self (SeleniumRequest r x))
              (final o'))).1 = inl (External e).
Proof.
  intros o self.
  destruct (spider_closed_quits_driver Scripted.browser
              (λ w _, Scripted.closed w = true) Scripted.local_crawler Scripted.initial
              self scripted_quit_closes scripted_closed_fails eq_refl)
    as (d & [= <-] & Hsig & Hrecv & Hfail & _).
  split; [exact Hsig |]. intros o'. split; [reflexivity |].
  intros r x. destruct (Hfail (final o') r x eq_refl) as (e & w4 & Hrun).
  exists e. by rewrite Hrun.
Defined.

(** ** The encoding of the page source *)

Lemma all_below_spec bits f :
  all_below bits f = true → ∀ n, n < 2 ^ N.of_nat bits → f n = true.
Proof.
  revert f. induction bits as [| b IH]; intros f H n Hn.
  - simpl in Hn. assert (n = 0) as -> by lia. exact H.
  - simpl in H. apply andb_true_iff in H as [H0 H1].
    rewrite Nat2N.inj_succ, N.pow_succ_r' in Hn.
    destruct (N.even n) eqn:He.
    + apply N.even_spec in He as [k ->]. apply (IH _ H0). lia.
    + assert (Ho : N.odd n = true) by (rewrite <- N.negb_even, He; done).
      apply N.odd_spec in Ho as [k ->]. apply (IH _ H1). lia.
Qed.

Lemma split6 c : N.lor (N.shiftl (N.shiftr c 6) 6) (N.land c 0x3F) = c.
Proof.
  apply N.bits_inj. intros n. rewrite N.lor_spec.
  change 0x3F with (N.ones 6). rewrite N.land_ones.
  destruct (N.lt_ge_cases n 6) as [Hn | Hn].
  - rewrite N.shiftl_spec_low by done. by rewrite N.mod_pow2_bits_low.
  - rewrite N.shiftl_spec_high' by done. rewrite N.shiftr_spec'.
    rewrite N.mod_pow2_bits_high by done. rewrite orb_false_r. f_equal. lia.
Qed.

Lemma split12 c :
  N.lor (N.shiftl (N.shiftr c 12) 12)
    (N.lor (N.shiftl (N.land (N.shiftr c 6) 0x3F) 6) (N.land c 0x3F)) = c.
Proof.
  rewrite <- (split6 c) at 4. rewrite <- (split6 (N.shiftr c 6)) at 2.
  rewrite N.shiftr_shiftr, N.shiftl_lor, N.shiftl_shiftl.
  by rewrite N.lor_assoc.
Qed.

Lemma split18 c :
  N.lor (N.shiftl (N.shiftr c 18) 18)
    (N.lor (N.shiftl (N.land (N.shiftr c 12) 0x3F) 12)
       (N.lor (N.shiftl (N.land (N.shiftr c 6) 0x3F) 6) (N.land c 0x3F))) = c.
Proof.
  rewrite <- (split12 c) at 5. rewrite <- (split6 (N.shiftr c 12)) at 2.
  rewrite N.shiftr_shiftr, N.shiftl_lor, N.shiftl_shiftl.
  by rewrite N.lor_assoc.
Qed.

Lemma shiftr_bound c (k b : N) : c < b * 2 ^ k → N.shiftr c k < b.
Proof.
  intros Hc. rewrite N.shiftr_div_pow2. apply N.Div0.div_lt_upper_bound; lia.
Qed.

Lemma low6_bound c : N.land c 0x3F < 64.
Proof.
  change 0x3F with (N.ones 6). rewrite N.land_ones. by apply N.mod_lt.
Qed.

Lemma continuation_spec l :
  l < 64 → N.land (N.lor 0x80 l) 0x3F = l ∧ N.lor 0x80 l < 256.
Proof.
  intros Hl. assert (H : continuation_ok l = true).
  { by apply (all_below_spec 6 continuation_ok). }
  apply andb_true_iff in H as [H1 H2].
  by apply N.eqb_eq in H1; apply N.ltb_lt in H2.
Qed.

Lemma lead2_spec h :
  h < 32 → 0xC0 ≤ N.lor 0xC0 h < 0xE0 ∧ N.land (N.lor 0xC0 h) 0x1F = h.
Proof.
  intros Hh. assert (H : lead2_ok h = true).
  { by apply (all_below_spec 5 lead2_ok). }
  unfold lead2_ok in H. cbv zeta in H.
  apply andb_true_iff in H as [H H3]. apply andb_true_iff in H as [H1 H2].
  apply negb_true_iff, N.ltb_ge in H1. apply N.ltb_lt in H2. by apply N.eqb_eq in H3.
Qed.

Lemma lead3_spec h :
  h < 16 → 0xE0 ≤ N.lor 0xE0 h < 0xF0 ∧ N.land (N.lor 0xE0 h) 0x0F = h.
Proof.
  intros Hh. assert (H : lead3_ok h = true).
  { by apply (all_below_spec 4 lead3_ok). }
  unfold lead3_ok in H. cbv zeta in H.
  apply andb_true_iff in H as [H H3]. apply andb_true_iff in H as [H1 H2].
  apply negb_true_iff, N.ltb_ge in H1. apply N.ltb_lt in H2. by apply N.eqb_eq in H3.
Qed.

Lemma lead4_spec h :
  h < 8 → 0xF0 ≤ N.lor 0xF0 h < 256 ∧ N.land (N.lor 0xF0 h) 0x07 = h.
Proof.
  intros Hh. assert (H : lead4_ok h = true).
  { by apply (all_below_spec 3 lead4_ok). }
  unfold lead4_ok in H. cbv zeta in H.
  apply andb_true_iff in H as [H H3]. apply andb_true_iff in H as [H1 H2].
  apply negb_true_iff, N.ltb_ge in H1. apply N.ltb_lt in H2. by apply N.eqb_eq in H3.
Qed.

Lemma utf8_decode_encode_cp c bs rest :
  utf8_encode_cp c = Some bs →
  utf8_decode_cp (bs ++ rest) = Some (c, rest) ∧
  Forall (λ b, b < 256) bs ∧ (1 ≤ length bs ≤ 4)%nat.
Proof.
  unfold utf8_encode_cp.
  destruct (N.ltb_spec c 0x80) as [H1 | H1].
  { intros [= <-]. simpl. apply N.ltb_lt in H1 as H1'. rewrite H1'.
    split; [done |]. split; [| lia]. repeat constructor. lia. }
  destruct (N.ltb_spec c 0x800) as [H2 | H2].
  { intros [= <-].
    destruct (lead2_spec (N.shiftr c 6)) as [[Ha Hb] Hc]; [by apply shiftr_bound |].
    destruct (continuation_spec (N.land c 0x3F)) as [Hd He]; [apply low6_bound |].
    split; [| split; [repeat constructor; lia | simpl; lia]].
    cbn [app utf8_decode_cp].
    rewrite (proj2 (N.ltb_ge _ _)) by lia. rewrite (proj2 (N.ltb_ge _ _)) by lia.
    rewrite (proj2 (N.ltb_lt _ _)) by lia.
    by rewrite Hc, Hd, split6. }
  destruct (N.ltb_spec c 0x10000) as [H3 | H3].
  { destruct ((0xD800 <=? c) && (c <=? 0xDFFF)); [done |]. intros [= <-].
    destruct (lead3_spec (N.shiftr c 12)) as [[Ha Hb] Hc]; [by apply shiftr_bound |].
    destruct (continuation_spec (N.land (N.shiftr c 6) 0x3F)) as [Hd He];
      [apply low6_bound |].
    destruct (continuation_spec (N.land c 0x3F)) as [Hf Hg]; [apply low6_bound |].
    split; [| split; [repeat constructor; lia | simpl; lia]].
    cbn [app utf8_decode_cp].
    do 3 rewrite (proj2 (N.ltb_ge _ _)) by lia.
    rewrite (proj2 (N.ltb_lt _ _)) by lia.
    by rewrite Hc, Hd, Hf, split12. }
  destruct (N.ltb_spec c 0x110000) as [H4 | H4]; [| done].
  intros [= <-].
  destruct (lead4_spec (N.shiftr c 18)) as [[Ha Hb] Hc]; [apply shiftr_bound; lia |].
  destruct (continuation_spec (N.land (N.shiftr c 12) 0x3F)) as [Hd He];
    [apply low6_bound |].
  destruct (continuation_spec (N.land (N.shiftr c 6) 0x3F)) as [Hf Hg];
    [apply low6_bound |].
  destruct (continuation_spec (N.land c 0x3F)) as [Hh Hi]; [apply low6_bound |].
  split; [| split; [repeat constructor; lia | simpl; lia]].
  cbn [app utf8_decode_cp].
  do 4 rewrite (proj2 (N.ltb_ge _ _)) by lia.
  by rewrite Hc, Hd, Hf, Hh, split18.
Qed.

Lemma utf8_encode_length s bs :
  utf8_encode s = Some bs →
  (length s ≤ length bs ≤ 4 * length s)%nat ∧ Forall (λ b, b < 256) bs.
Proof.
  revert bs. induction s as [| c s IH]; intros bs; simpl.
  - intros [= <-]. split; [simpl; lia | constructor].
  - destruct (utf8_encode_cp c) as [b |] eqn:Hc; [| done].
    destruct (utf8_encode s) as [bs' |]; [| done]. intros [= <-].
    destruct (utf8_decode_encode_cp c b [] Hc) as (_ & Hb & Hlen).
    destruct (IH bs' eq_refl) as [Hl Hbs]. rewrite length_app.
    split; [lia | by apply Forall_app].
Qed.

Lemma utf8_decode_upto_encode s bs fuel :
  utf8_encode s = Some bs → (length s ≤ fuel)%nat →
  utf8_decode_upto fuel bs = Some s.
Proof.
  revert bs fuel. induction s as [| c s IH]; intros bs fuel; simpl.
  - intros [= <-] _. by destruct fuel.
  - destruct (utf8_encode_cp c) as [b |] eqn:Hc; [| done].
    destruct (utf8_encode s) as [bs' |]; [| done]. intros [= <-] Hfuel.
    destruct (utf8_decode_encode_cp c b bs' Hc) as (Hd & _ & Hlen).
    destruct fuel as [| fuel]; [lia |].
    destruct b as [| b0 b]; [simpl in Hlen; lia |].
    change ((b0 :: b) ++ bs') with (b0 :: (b ++ bs')) in *.
    cbn [utf8_decode_upto]. rewrite Hd.
    rewrite (IH bs' fuel eq_refl) by lia. done.
Qed.

(** What [str.encode] gives reads back as the string encoded, is made of
    bytes, and has between one and four of them per code point. *)
Lemma utf8_round_trip s bs :
  utf8_encode s = Some bs →
  utf8_decode bs = Some s ∧
  Forall (λ b, b < 256) bs ∧
  (length s ≤ length bs ≤ 4 * length s)%nat.
Proof.
  intros Henc. destruct (utf8_encode_length s bs Henc) as [Hlen Hbytes].
  split; [| done]. apply utf8_decode_upto_encode; [done | lia].
Qed.

(** ** The steps of a request *)

Lemma add_cookies_spec {S} d (cs : list (pystr * pyvalue)) (s : S) :
  triple (for_each cs (λ '(cookie_name, cookie_value),
            call (AddCookie d (cookie_dict cookie_name cookie_value)))) s
    (returns (λ _ s' t, s' = s ∧ t = cookie_events d cs)).
Proof.
  revert s. induction cs as [| [n v] cs IH]; intros s.
  - cbn [for_each]. apply triple_ret. by split.
  - cbn [for_each]. triple_step. cbv beta iota. triple_step; [done |].
    eapply triple_mono; [| apply IH]. intros [[] | []] s' t; try done.
    simpl. destruct x. by intros [-> ->].
Qed.

Lemma wait_spec {S} d x (s : S) :
  triple (match wait_until x with
          | Some method =>
              (w ← call (WebDriverWait d (wait_time x));
               call (Until w method);; mret tt)%py
          | None => mret tt
          end) s
    (returns (λ _ s' t, s' = s ∧ ∃ wait waited, t = wait_events d x wait waited)).
Proof.
  unfold wait_events. destruct (wait_until x) as [method |].
  - triple_step. triple_step; [done |]. triple_step. triple_step; [done |].
    triple_step. split; [done |]. by eexists _, _.
  - apply triple_ret. split; [done |]. by exists 0%nat, PNone.
Qed.

Lemma screenshot_spec d x (s : request) :
  triple (when (screenshot x)
            (png ← call (GetScreenshotAsPng d);
             modify (meta_set (lit "screenshot") (Bytes png)))%py) s
    (returns (λ _ s' t, ∃ png, s' = with_screenshot x png s ∧
                                 t = screenshot_events d x png)).
Proof.
  unfold with_screenshot, screenshot_events. destruct (screenshot x); cbn [when].
  - triple_step. triple_step; [done |]. triple_step. by eexists.
  - apply triple_ret. by exists [].
Qed.

Lemma script_spec {S} d x (s : S) :
  triple (match script x with
          | Some (c :: sc) => (call (ExecuteScript d (c :: sc));; mret tt)%py
          | _ => mret tt
          end) s
    (returns (λ _ s' t, s' = s ∧ ∃ returned, t = script_events d x returned)).
Proof.
  unfold script_events. destruct (script x) as [[| c sc] |].
  - apply triple_ret. split; [done |]. by exists PNone.
  - triple_step. triple_step; [done |]. triple_step. split; [done |]. by eexists.
  - apply triple_ret. split; [done |]. by exists PNone.
Qed.

Lemma process_request_spec self d r x :
  driver self = Some d →
  triple (process_request self) (SeleniumRequest r x) (process_request_post d r x).
Proof.
  intros Hd. unfold process_request, self_driver. rewrite Hd.
  triple_step. triple_step. triple_step. triple_step.
  triple_step. triple_step; [done |].
  eapply triple_seq; [apply add_cookies_spec |].
  intros [[] | []] s1 t1; try done. intros [-> ->].
  eapply triple_seq; [apply wait_spec |].
  intros [[] | []] s2 t2; try done. intros [-> (wait & waited & ->)].
  eapply triple_seq; [apply screenshot_spec |].
  intros [[] | []] s3 t3; try done. intros (png & -> & ->).
  eapply triple_seq; [apply script_spec |].
  intros [[] | []] s4 t4; try done. intros [-> (returned & ->)].
  triple_step. triple_step; [done |].
  triple_step. triple_step. unfold str_encode.
  destruct (utf8_encode x1) as [bytes |] eqn:Henc; cbv beta iota.
  - triple_step. triple_step. triple_step. triple_step; [done |].
    triple_step. triple_step. triple_step.
    exists wait, waited, png, returned, x1, x2, bytes.
    split; [| done]. unfold steps_before_source. simpl. destruct x0.
    by rewrite <- !app_assoc.
  - exists wait, waited, png, returned, x1. split; [| done].
    unfold steps_before_source. simpl. destruct x0.
    by rewrite <- !app_assoc.
Qed.

(** ** Properties closed under the method combinators *)

Section Compositional.
Context {S : Type} (Q : ∀ A : Type, result A → S → S → list event → Prop).
Context `{!Compositional Q}.

Lemma always_ret {A} (a : A) : always Q (mret a).
Proof. intros s. apply triple_ret, comp_ret. Qed.

Lemma always_get_state : always Q get_state.
Proof. intros s. apply triple_get_state, comp_ret. Qed.

Lemma always_call (c : cmd) : always Q (call c).
Proof.
  intros s. apply triple_call; intros x.
  - apply (comp_call c (inl x)).
  - apply (comp_call c (inr x)).
Qed.

Lemma always_raise {A} (e : exn) :
  (∀ s, Q A (inl e) s s []) → always Q (raise (A := A) e).
Proof. intros He s. apply triple_raise, He. Qed.

Lemma always_lift {A} (r : result A) :
  (∀ e s, r = inl e → Q A (inl e) s s []) → always Q (lift_result r).
Proof.
  intros Hr s. apply triple_lift. destruct r as [e | a]; [by apply Hr | apply comp_ret].
Qed.

Lemma always_modify (f : S → S) :
  (∀ s, Q unit (inr tt) s (f s) []) → always Q (modify f).
Proof. intros Hf s. apply triple_modify, Hf. Qed.

Lemma always_bind {A B} (m : M S A) (f : A → M S B) :
  always Q m → (∀ a, always Q (f a)) → always Q (mbind m f).
Proof.
  intros Hm Hf s. eapply triple_seq; [apply Hm |].
  intros [e | a] s' t Hr; cbv beta.
  - by eapply comp_fail.
  - eapply triple_mono; [| apply Hf]. intros r s'' t' Hr'. cbv beta.
    by eapply comp_seq.
Qed.

Lemma always_when (c : bool) (body : M S unit) :
  (c = true → always Q body) → always Q (when c body).
Proof. destruct c; simpl; [auto | intros _; apply always_ret]. Qed.

Lemma always_for_each {Y} (l : list Y) (body : Y → M S unit) :
  (∀ y, always Q (body y)) → always Q (for_each l body).
Proof.
  intros Hbody. induction l as [| y l IH]; simpl.
  - apply always_ret.
  - apply always_bind; [apply Hbody | intros _; apply IH].
Qed.

Lemma always_if {A} (c : bool) (m1 m2 : M S A) :
  (c = true → always Q m1) → (c = false → always Q m2) →
  always Q (if c then m1 else m2).
Proof. destruct c; auto. Qed.

Lemma always_run {A} (m : M S A) (E : env) (s : S) (w : world E) :
  always Q m →
  Q A (value (run E (m s) w)).1 s (value (run E (m s) w)).2 (trace (run E (m s) w)).
Proof. intros Hm. exact (triple_run E m s _ w (Hm s)). Qed.

End Compositional.

Ltac always_auto side :=
  repeat first
    [ side
    | apply always_bind; [apply _ | | intros ?]
    | apply always_call; apply _
    | apply always_when; [apply _ | intros ?]
    | apply always_for_each; [apply _ | intros ?]
    | apply always_lift; [apply _ |]
    | apply always_if; intros ?
    | apply always_ret; apply _
    | apply always_raise
    | apply always_modify
    | apply always_get_state; apply _
    | progress cbv beta
    | match goal with
      | |- always _ (match ?y with _ => _ end) => destruct y
      end ].

Lemma fails_fast_own {A} (e : exn) : own_exn e → fails_fast (A := A) (inl e) [].
Proof. intros He. destruct e; try by constructor. by destruct (He e). Qed.

#[local] Instance fail_fast_compositional {S} : Compositional (@fail_fast S).
Proof.
  split; unfold fail_fast.
  - constructor.
  - intros c [e | x] s; simpl.
    + exists [], c. split; [done | constructor].
    + by repeat constructor.
  - intros A B a r s s1 s2 t1 t2 H1 H2. simpl in H1.
    destruct r as [[] |]; simpl in *; try by apply Forall_app.
    destruct H2 as (t0 & c & -> & H0). exists (t1 ++ t0), c.
    split; [by rewrite app_assoc | by apply Forall_app].
  - done.
Qed.

#[local] Instance keeps_compositional {S} : Compositional (@keeps S).
Proof. split; unfold keeps; try done. intros; congruence. Qed.

Lemma str_encode_exn s e : str_encode s = inl e → e = UnicodeEncodeError.
Proof. unfold str_encode. destruct (utf8_encode s); congruence. Qed.

Ltac own_side :=
  idtac;
  match goal with
  | |- ∀ e s, _ = inl e → _ =>
      let H := fresh in
      intros ? ? H; unfold fail_fast; apply fails_fast_own;
      first [ apply py_iter_exn in H | apply py_items_exn in H
            | apply str_lower_exn in H | apply str_capitalize_exn in H
            | apply str_encode_exn in H ];
      subst; intros ?; discriminate
  | |- ∀ s, _ =>
      intros ?; unfold fail_fast;
      first [ apply Forall_nil_2 | apply fails_fast_own; intros ?; discriminate ]
  end.


Lemma init_stops_at_failure name path bp ce args caps uw wo ua :
  always (@fail_fast _) (__init__ name path bp ce args caps uw wo ua).
Proof. unfold __init__, add_driver_argument. always_auto ltac:(own_side). Qed.


Lemma construct_stops_at_failure {S} (init : M SeleniumMiddleware unit) :
  always (@fail_fast SeleniumMiddleware) init →
  always (@fail_fast S) (construct init).
Proof.
  intros Hinit s. unfold triple, construct. apply wp_pbind.
  eapply wp_mono; [| apply (Hinit {| driver := None |})].
  intros [[e | []] self] t Ht; simpl; by rewrite app_nil_r.
Qed.

Lemma from_crawler_stops_at_failure : always (@fail_fast Crawler) from_crawler.
Proof.
  unfold from_crawler.
  always_auto ltac:(first [own_side | apply construct_stops_at_failure, init_stops_at_failure]).
Qed.

Lemma process_request_run (E : env) self d r x (w : world E) :
  driver self = Some d →
  process_request_post d r x
    (value (run E (process_request self (SeleniumRequest r x)) w)).1
    (value (run E (process_request self (SeleniumRequest r x)) w)).2
    (trace (run E (process_request self (SeleniumRequest r x)) w)).
Proof.
  intros Hd. exact (triple_run E _ _ _ w (process_request_spec self d r x Hd)).
Qed.

(** X1. With a driver bound, a [SeleniumRequest] that is answered with a
    response has run exactly these steps, in this order: the navigation, one
    [add_cookie] per cookie, the wait when a condition is given, the
    screenshot when asked for, the script when a non-empty one is given, then
    the read of the page source and the read of the current URL. *)
Theorem process_request_steps (E : env) self d r x (w : world E) resp :
  driver self = Some d →
  (value (run E (process_request self (SeleniumRequest r x)) w)).1 = inr resp →
  ∃ wait waited png returned src u,
    trace (run E (process_request self (SeleniumRequest r x)) w) =
      steps_before_source d r x wait waited png returned ++
      [Event (PageSource d) (inr src); Event (CurrentUrl d) (inr u)].
Proof.
  intros Hd Hok. pose proof (process_request_run E self d r x w Hd) as Hpost.
  rewrite Hok in Hpost.
  destruct Hpost as (wait & waited & png & returned & src & u & bytes & Ht & _).
  by exists wait, waited, png, returned, src, u.
Qed.

Lemma process_request_steps_witness :
  ∃ wait waited png returned src u,
    trace (run Scripted.browser
             (process_request {| driver := Some 0%nat |}
                (SeleniumRequest full_request full_fields)) Scripted.started) =
      steps_before_source 0%nat full_request full_fields wait waited png returned ++
      [Event (PageSource 0%nat) (inr src); Event (CurrentUrl 0%nat) (inr u)].
Proof.
  eapply (process_request_steps Scripted.browser {| driver := Some 0%nat |} 0%nat
            full_request full_fields Scripted.started); reflexivity.
Defined.

(** X2. With a driver bound, a [SeleniumRequest] never gets [None]: what
    [process_request] returns is a response whose URL is the answer to the
    last command of the run, the read of the current URL, whose body is the
    UTF-8 encoding of the answer to the command before it, the read of the
    page source, whose encoding is ["utf-8"], and whose request is the
    request object as the method leaves it. *)
Theorem process_request_response (E : env) self d r x (w : world E) resp :
  driver self = Some d →
  (value (run E (process_request self (SeleniumRequest r x)) w)).1 = inr resp →
  ∃ t0 src u bytes,
    trace (run E (process_request self (SeleniumRequest r x)) w) =
      t0 ++ [Event (PageSource d) (inr src); Event (CurrentUrl d) (inr u)] ∧
    utf8_encode src = Some bytes ∧
    resp = Some {| response_url := u; body := bytes; encoding := lit "utf-8";
                   response_request :=
                     (value (run E (process_request self (SeleniumRequest r x)) w)).2 |}.
Proof.
  intros Hd Hok. pose proof (process_request_run E self d r x w Hd) as Hpost.
  rewrite Hok in Hpost.
  destruct Hpost as (wait & waited & png & returned & src & u & bytes & Ht & Henc & Hrq & ->).
  by exists (steps_before_source d r x wait waited png returned), src, u, bytes.
Qed.

Lemma process_request_response_witness :
  ∃ resp,
    (value (run Scripted.browser
              (process_request {| driver := Some 0%nat |}
                 (SeleniumRequest full_request full_fields)) Scripted.started)).1 =
      inr resp ∧
    ∃ t0 src u bytes,
      trace (run Scripted.browser
               (process_request {| driver := Some 0%nat |}
                  (SeleniumRequest full_request full_fields)) Scripted.started) =
        t0 ++ [Event (PageSource 0%nat) (inr src); Event (CurrentUrl 0%nat) (inr u)] ∧
      utf8_encode src = Some bytes ∧
      resp = Some {| response_url := u; body := bytes; encoding := lit "utf-8";
                     response_request :=
                       (value (run Scripted.browser
                                 (process_request {| driver := Some 0%nat |}
                                    (SeleniumRequest full_request full_fields))
                                 Scripted.started)).2 |}.
Proof.
  eexists. split; [reflexivity |].
  eapply (process_request_response Scripted.browser {| driver := Some 0%nat |} 0%nat
            full_request full_fields Scripted.started); reflexivity.
Defined.

Lemma request_meta_set key v rq :
  request_meta (meta_set key v rq) = <[key := v]> (request_meta rq).
Proof. by destruct rq. Qed.

Lemma lit_driver_screenshot : lit "driver" ≠ lit "screenshot".
Proof. discriminate. Qed.

(** X3. With a driver bound, a [SeleniumRequest] that is answered with a
    response is left with its URL, cookies and selenium fields as they were
    and with the driver under [meta["driver"]]; [meta["screenshot"]] holds
    the bytes the screenshot command was answered with when a screenshot was
    asked for and is untouched otherwise; every other key of [meta] is
    untouched. *)
Theorem process_request_meta (E : env) self d r x (w : world E) resp :
  driver self = Some d →
  (value (run E (process_request self (SeleniumRequest r x)) w)).1 = inr resp →
  ∃ r' png,
    (value (run E (process_request self (SeleniumRequest r x)) w)).2 =
      SeleniumRequest r' x ∧
    url r' = url r ∧ cookies r' = cookies r ∧
    meta r' !! lit "driver" = Some (Ref d) ∧
    (if screenshot x
     then In (Event (GetScreenshotAsPng d) (inr png))
             (trace (run E (process_request self (SeleniumRequest r x)) w)) ∧
          meta r' !! lit "screenshot" = Some (Bytes png)
     else meta r' !! lit "screenshot" = meta r !! lit "screenshot") ∧
    (∀ key, key ≠ lit "driver" → key ≠ lit "screenshot" →
            meta r' !! key = meta r !! key).
Proof.
  intros Hd Hok. pose proof (process_request_run E self d r x w Hd) as Hpost.
  rewrite Hok in Hpost.
  destruct Hpost as (wait & waited & png & returned & src & u & bytes & Ht & _ & Hrq & _).
  rewrite Hrq, Ht. unfold with_screenshot, steps_before_source, screenshot_events.
  destruct (screenshot x); unfold meta_set; eexists _, png;
    (split; [reflexivity |]); cbn [url cookies meta];
    (split; [done |]); (split; [done |]).
  - split; [by rewrite lookup_insert_eq |]. split.
    + split.
      * apply in_or_app. left. right. apply in_or_app. right.
        apply in_or_app. right. apply in_or_app. left. by left.
      * rewrite lookup_insert_ne by apply lit_driver_screenshot.
        by rewrite lookup_insert_eq.
    + intros key H1 H2. by rewrite !lookup_insert_ne.
  - split; [by rewrite lookup_insert_eq |]. split.
    + by rewrite lookup_insert_ne by apply lit_driver_screenshot.
    + intros key H1 H2. by rewrite lookup_insert_ne.
Qed.

Lemma process_request_meta_witness :
  ∃ r' png,
    (value (run Scripted.browser
              (process_request {| driver := Some 0%nat |}
                 (SeleniumRequest full_request full_fields)) Scripted.started)).2 =
      SeleniumRequest r' full_fields ∧
    url r' = url full_request ∧ cookies r' = cookies full_request ∧
    meta r' !! lit "driver" = Some (Ref 0%nat) ∧
    (In (Event (GetScreenshotAsPng 0%nat) (inr png))
        (trace (run Scripted.browser
                  (process_request {| driver := Some 0%nat |}
                     (SeleniumRequest full_request full_fields)) Scripted.started)) ∧
     meta r' !! lit "screenshot" = Some (Bytes png)) ∧
    (∀ key, key ≠ lit "driver" → key ≠ lit "screenshot" →
            meta r' !! key = meta full_request !! key).
Proof.
  eapply (process_request_meta Scripted.browser {| driver := Some 0%nat |} 0%nat
            full_request full_fields Scripted.started); reflexivity.
Defined.




(** X6. The body of the response is the encoding of the page source read
    from the driver: made of bytes, between one and four of them per code
    point, and the encoding of no other string. *)
Theorem process_request_body (E : env) self d r x (w : world E) resp :
  driver self = Some d →
  (value (run E (process_request self (SeleniumRequest r x)) w)).1 = inr (Some resp) →
  ∃ src,
    In (Event (PageSource d) (inr src))
       (trace (run E (process_request self (SeleniumRequest r x)) w)) ∧
    utf8_encode src = Some (body resp) ∧
    Forall (λ b, b < 256) (body resp) ∧
    (length src ≤ length (body resp) ≤ 4 * length src)%nat ∧
    (∀ s, utf8_encode s = Some (body resp) → s = src).
Proof.
  intros Hd Hok. pose proof (process_request_run E self d r x w Hd) as Hpost.
  rewrite Hok in Hpost.
  destruct Hpost
    as (wait & waited & png & returned & src & u & bytes & Ht & Henc & _ & [= ->]).
  exists src. cbn [body]. rewrite Ht.
  destruct (utf8_round_trip src bytes Henc) as (Hdec & Hb & Hl).
  split; [apply in_or_app; right; by left |].
  split; [done |]. split; [done |]. split; [done |].
  intros s Hs. destruct (utf8_round_trip s bytes Hs) as (Hdec' & _). congruence.
Qed.

Lemma process_request_body_witness :
  ∃ resp,
    (value (run Scripted.browser
              (process_request {| driver := Some 0%nat |}
                 (SeleniumRequest full_request full_fields)) Scripted.started)).1 =
      inr (Some resp) ∧
    ∃ src,
      In (Event (PageSource 0%nat) (inr src))
         (trace (run Scripted.browser
                   (process_request {| driver := Some 0%nat |}
                      (SeleniumRequest full_request full_fields)) Scripted.started)) ∧
      utf8_encode src = Some (body resp) ∧
      Forall (λ b, b < 256) (body resp) ∧
      (length src ≤ length (body resp) ≤ 4 * length src)%nat ∧
      (∀ s, utf8_encode s = Some (body resp) → s = src).
Proof.
  eexists. split; [reflexivity |].
  eapply (process_request_body Scripted.browser {| driver := Some 0%nat |} 0%nat
            full_request full_fields Scripted.started); reflexivity.
Defined.

(** ** The configuration of the options object *)

Lemma configuration_app t t' : configuration (t ++ t') = configuration t ++ configuration t'.
Proof. unfold configuration. by rewrite List.filter_app, fmap_app. Qed.

Lemma configuration_safe t :
  Forall (λ e, is_configuration (command e) = false) t → configuration t = [].
Proof.
  induction 1 as [| e t He _ IH]; [done |].
  unfold configuration in *. simpl. by rewrite He.
Qed.

Lemma set_binary_location_spec {S} o bp (s : S) :
  triple (when (truthy bp) (call (SetBinaryLocation o bp))) s
    (returns (λ _ _ t,
       configuration t = if truthy bp then [SetBinaryLocation o bp] else [])).
Proof.
  destruct (truthy bp); cbn [when].
  - triple_step; done.
  - by apply triple_ret.
Qed.

Lemma add_driver_argument_configuration o ua x (s : SeleniumMiddleware) :
  triple (add_driver_argument o ua x) s (λ r _ t,
    r = inr tt → ∃ a, x = PStr a ∧
      configuration t = [AddArgument o (effective_argument ua a)]).
Proof.
  unfold add_driver_argument. triple_step. triple_step.
  destruct x as [| b | z | a | l0 | d]; cbn [str_lower]; try discriminate.
  triple_step; [discriminate |]. intros _. exists a. split; [done |].
  unfold configuration, effective_argument. simpl.
  by destruct (startswith _ _), (truthy ua).
Qed.

Lemma add_arguments_configuration o ua (l : list pyvalue) (s : SeleniumMiddleware) :
  triple (for_each l (add_driver_argument o ua)) s (λ r _ t,
    r = inr tt → ∃ arguments, l = PStr <$> arguments ∧
      configuration t = (λ a, AddArgument o (effective_argument ua a)) <$> arguments).
Proof.
  revert s. induction l as [| x l IH]; intros s.
  - apply triple_ret. intros _. by exists [].
  - cbn [for_each]. eapply triple_seq; [apply add_driver_argument_configuration |].
    intros [e | []] s' t Hx; [discriminate |].
    destruct (Hx eq_refl) as (a & -> & Ha).
    eapply triple_mono; [| apply IH]. intros r s'' t' Hr Hok. cbv beta.
    destruct (Hr Hok) as (arguments & -> & Ht). exists (a :: arguments).
    split; [done |]. by rewrite configuration_app, Ha, Ht.
Qed.

Lemma set_capabilities_configuration o caps (s : SeleniumMiddleware) :
  triple (when (truthy caps)
            (items ← lift_result (py_items caps);
             for_each items (λ '(key, value),
               call (SetCapability o key value)))%py) s (λ r _ t,
    r = inr tt → ∃ items,
      (if truthy caps then py_items caps = inr items else items = []) ∧
      configuration t = (λ kv, SetCapability o kv.1 kv.2) <$> items).
Proof.
  destruct (truthy caps); cbn [when].
  - triple_step. triple_step.
    destruct (py_items caps) as [e | items]; [discriminate |]. cbv beta iota.
    assert (Hloop : ∀ s0, triple (for_each items (λ '(key, value),
               call (SetCapability o key value))) s0 (λ r (_ : SeleniumMiddleware) t,
             r = inr tt →
             configuration t = (λ kv, SetCapability o kv.1 kv.2) <$> items)).
    { clear s. induction items as [| [k v] items IH]; intros s0.
      - by apply triple_ret.
      - cbn [for_each]. triple_step. triple_step; [discriminate |].
        eapply triple_mono; [| apply IH]. intros r s' t' Hr Hok. cbv beta.
        rewrite configuration_app, (Hr Hok). done. }
    eapply triple_mono; [| apply Hloop]. intros r s' t Hr Hok.
    exists items. split; [done |]. by apply Hr.
  - apply triple_ret. intros _. by exists [].
Qed.

Lemma init_configuration name path bp ce args caps uw wo ua self :
  triple (__init__ name path bp ce args caps uw wo ua) self
    (λ r _ t, init_configured_post name bp args caps ua r t).
Proof.
  unfold __init__, init_configured_post.
  do 5 (triple_step; triple_step; [discriminate |]).
  eapply triple_seq; [apply set_binary_location_spec |].
  intros [[] | []] s1 t1; try done. intros Hb.
  triple_step. triple_step.
  destruct (py_iter args) as [e | l] eqn:Hargs; [discriminate |].
  eapply triple_seq; [apply add_arguments_configuration |].
  intros [e | []] s2 t2 Ha; [discriminate |].
  destruct (Ha eq_refl) as (arguments & -> & Ha'). clear Ha.
  eapply triple_seq; [apply set_capabilities_configuration |].
  intros [e | []] s3 t3 Hc; [discriminate |].
  destruct (Hc eq_refl) as (items & Hitems & Hc'). clear Hc.
  match goal with
  | |- triple ?T _ _ =>
      assert (Hsafe : safe (λ e, is_configuration (command e) = false) any_exn T)
        by (safe_auto ltac:(first [done | by intros []]))
  end.
  eapply triple_mono; [| apply Hsafe]. intros r s' t [Hq _] Hok. cbv beta.
  exists x, x0, x1, x2, x3, (t1 ++ [] ++ t2 ++ t3 ++ t), arguments, items.
  split; [done |]. split; [done |]. split; [done |].
  unfold configuration_commands.
  rewrite !configuration_app. rewrite Hb. rewrite Ha'. rewrite Hc'.
  rewrite (configuration_safe _ Hq).
  unfold configuration at 1. simpl. by rewrite !app_nil_r.
Qed.

(** X7. When [__init__] returns, the run starts with the prelude, the
    items of [driver_arguments] are all [str], and the options object [o]
    built by the prelude has been configured by exactly these commands, in
    this order: the
    binary location when a browser path is given, one [add_argument] per
    argument with the user-agent override applied, one [set_capability] per
    item of the capabilities when they are given. *)
Theorem init_configures_options (E : env) name path bp ce args caps uw wo ua self
    (w : world E) :
  (value (run E (__init__ name path bp ce args caps uw wo ua self) w)).1 = inr tt →
  ∃ m1 k1 m2 k2 o rest arguments items,
    trace (run E (__init__ name path bp ce args caps uw wo ua self) w) =
      prelude_events name m1 k1 m2 k2 o ++ rest ∧
    py_iter args = inr (PStr <$> arguments) ∧
    (if truthy caps then py_items caps = inr items else items = []) ∧
    configuration (trace (run E (__init__ name path bp ce args caps uw wo ua self) w)) =
      configuration_commands o bp arguments ua items.
Proof.
  apply (triple_run E _ self _ w (init_configuration _ _ _ _ _ _ _ _ _ _)).
Qed.

Lemma init_configures_options_witness :
  let init :=
    __init__ (PStr (lit "chrome")) Scripted.chromedriver
      (PStr (lit "/usr/bin/chromium")) PNone (PList (PStr <$> Scripted.sample_arguments))
      sample_capabilities PNone PNone Scripted.sample_user_agent {| driver := None |} in
  ∃ m1 k1 m2 k2 o rest arguments items,
    trace (run Scripted.browser init Scripted.initial) =
      prelude_events (PStr (lit "chrome")) m1 k1 m2 k2 o ++ rest ∧
    py_iter (PList (PStr <$> Scripted.sample_arguments)) = inr (PStr <$> arguments) ∧
    py_items sample_capabilities = inr items ∧
    configuration (trace (run Scripted.browser init Scripted.initial)) =
      configuration_commands o (PStr (lit "/usr/bin/chromium")) arguments
        Scripted.sample_user_agent items.
Proof.
  intros init.
  eapply (init_configures_options Scripted.browser (PStr (lit "chrome"))
            Scripted.chromedriver (PStr (lit "/usr/bin/chromium")) PNone
            (PList (PStr <$> Scripted.sample_arguments)) sample_capabilities PNone PNone
            Scripted.sample_user_agent {| driver := None |} Scripted.initial).
  reflexivity.
Defined.

(** ** A constructor call with neither a path nor a command executor *)

Ltac keeps_side :=
  idtac;
  match goal with
  | |- ∀ e s, _ = inl e → _ => by intros
  | |- ∀ s, _ => by intros
  end.

Lemma init_without_branch_keeps name bp args caps uw wo ua :
  always (@keeps SeleniumMiddleware) (__init__ name PNone bp PNone args caps uw wo ua).
Proof.
  unfold __init__, add_driver_argument. cbn [is_None negb].
  always_auto ltac:(keeps_side).
Qed.

(** X8. Called with neither an executable path nor a command executor (which
    [from_crawler] never does), the constructor binds no driver: on the
    object it returns, [process_request] raises [AttributeError] on a
    [SeleniumRequest] before any command is sent, lets any other request
    pass, and [spider_closed] raises [AttributeError]. *)
Theorem constructor_without_driver (E : env) name bp args caps uw wo ua
    (w : world E) self :
  (value (run E (construct (__init__ name PNone bp PNone args caps uw wo ua) tt) w)).1
    = inr self →
  driver self = None ∧
  (∀ (E' : env) r x (w' : world E'),
     run E' (process_request self (SeleniumRequest r x)) w' =
       ((inl AttributeError, SeleniumRequest r x), w', [])) ∧
  (∀ (E' : env) r (w' : world E'),
     run E' (process_request self (PlainRequest r)) w' =
       ((inr None, PlainRequest r), w', [])) ∧
  (∀ (E' : env) (w' : world E'),
     run E' (spider_closed self tt) w' = ((inl AttributeError, tt), w', [])).
Proof.
  intros Hok. rewrite run_construct in Hok. cbn [value fst snd] in Hok.
  pose proof (always_run _ _ E {| driver := None |} w
                (init_without_branch_keeps name bp args caps uw wo ua)) as Hkeep.
  unfold keeps, value in *.
  destruct (run E (__init__ name PNone bp PNone args caps uw wo ua
                     {| driver := None |}) w) as [[[[e | []] self'] w'] t];
    simpl in *; [done |].
  injection Hok as <-. subst self'.
  split; [done |]. split; [| split]; intros; reflexivity.
Qed.

Lemma constructor_without_driver_witness :
  driver {| driver := None |} = None ∧
  (∀ (E' : env) r x (w' : world E'),
     run E' (process_request {| driver := None |} (SeleniumRequest r x)) w' =
       ((inl AttributeError, SeleniumRequest r x), w', [])) ∧
  (∀ (E' : env) r (w' : world E'),
     run E' (process_request {| driver := None |} (PlainRequest r)) w' =
       ((inr None, PlainRequest r), w', [])) ∧
  (∀ (E' : env) (w' : world E'),
     run E' (spider_closed {| driver := None |} tt) w' = ((inl AttributeError, tt), w', [])).
Proof.
  apply (constructor_without_driver Scripted.browser (PStr (lit "chrome")) PNone
           (PList []) PNone PNone PNone PNone Scripted.initial {| driver := None |}).
  reflexivity.
Defined.

(** ** A missing argument list *)

Lemma init_without_arguments name path bp ce caps uw wo ua self :
  triple (__init__ name path bp ce PNone caps uw wo ua) self (λ r s' t,
    type_error_or_foreign r ∧
    Forall (λ ev, builds_driver (command ev) = false) t ∧ s' = self).
Proof.
  assert (Hfail : ∀ (x : ext_exn) t,
    Forall (λ ev, builds_driver (command ev) = false) t →
    type_error_or_foreign (inl (External x) : result unit) ∧
    Forall (λ ev, builds_driver (command ev) = false) t ∧ self = self).
  { intros x t Ht. split; [| done]. exists (External x). split; [done |]. right. by eexists. }
  unfold __init__.
  do 5 (triple_step; triple_step; [apply Hfail; by repeat constructor |]).
  triple_step. triple_step.
  - triple_step; [apply Hfail; by repeat constructor |].
    triple_step. triple_step. split; [| split; [by repeat constructor | done]].
    exists TypeError. split; [done | by left].
  - triple_step. triple_step. split; [| split; [by repeat constructor | done]].
    exists TypeError. split; [done | by left].
Qed.

Lemma instantiate_without_arguments crawler self :
  unset crawler "SELENIUM_DRIVER_ARGUMENTS" →
  triple (instantiate_from crawler) self (λ r s' t,
    type_error_or_foreign r ∧
    Forall (λ ev, builds_driver (command ev) = false) t ∧ s' = self).
Proof.
  intros Hunset. unfold instantiate_from. rewrite Hunset. apply init_without_arguments.
Qed.

(** X9. [SELENIUM_DRIVER_ARGUMENTS] is not optional: on settings that pass
    the two configuration checks but leave it unset, [from_crawler] fails
    with [TypeError] (the loop over [None]) unless the foreign side fails
    first, in every case before any driver class is instantiated, and the
    crawler is left as it was. *)
Theorem from_crawler_without_arguments (E : env) crawler (w : world E) :
  ¬ missing_configuration crawler →
  unset crawler "SELENIUM_DRIVER_ARGUMENTS" →
  type_error_or_foreign (value (run E (from_crawler crawler) w)).1 ∧
  (Forall succeeded (trace (run E (from_crawler crawler) w)) →
   (value (run E (from_crawler crawler) w)).1 = inl TypeError) ∧
  Forall (λ ev, builds_driver (command ev) = false)
    (trace (run E (from_crawler crawler) w)) ∧
  (value (run E (from_crawler crawler) w)).2 = crawler.
Proof.
  intros Hconf Hunset.
  pose proof (always_run _ _ E crawler w from_crawler_stops_at_failure) as Hff.
  unfold fail_fast in Hff.
  rewrite (run_from_crawler E crawler w Hconf) in Hff |- *.
  pose proof (triple_run E _ {| driver := None |} _ w
                (instantiate_without_arguments crawler {| driver := None |} Hunset))
    as ((e & He & Hkind) & Hno & _).
  cbv beta in He, Hno. unfold value, trace in *.
  destruct (run E _ w) as [[[r self'] w'] t]. simpl in *. subst r.
  split; [by exists e |]. split; [| done].
  intros Hall. destruct Hkind as [-> | [x ->]]; [done |].
  destruct Hff as (t0 & c & -> & _). apply Forall_app in Hall as [_ Hlast].
  by inversion Hlast.
Qed.

Lemma from_crawler_without_arguments_witness :
  (value (run Scripted.browser (from_crawler bare_crawler) Scripted.initial)).1 =
    inl TypeError ∧
  Forall (λ ev, builds_driver (command ev) = false)
    (trace (run Scripted.browser (from_crawler bare_crawler) Scripted.initial)) ∧
  (value (run Scripted.browser (from_crawler bare_crawler) Scripted.initial)).2 =
    bare_crawler.
Proof.
  destruct (from_crawler_without_arguments Scripted.browser bare_crawler Scripted.initial)
    as (_ & Hte & Hno & Hc).
  - intros [H | [H _]]; vm_compute in H; discriminate H.
  - reflexivity.
  - split; [| by split]. apply Hte. vm_compute. repeat constructor.
Defined.

(** ** The crawler object *)

(** X10. [from_crawler] never changes the settings; when it raises, the
    crawler is left as it was; when it returns a middleware, the crawler has
    got exactly one more receiver, after the ones it had: the
    [spider_closed] method of that middleware, on the [spider_closed]
    signal. *)
Theorem from_crawler_crawler (E : env) crawler (w : world E) :
  settings (value (run E (from_crawler crawler) w)).2 = settings crawler ∧
  (∀ e, (value (run E (from_crawler crawler) w)).1 = inl e →
        (value (run E (from_crawler crawler) w)).2 = crawler) ∧
  (∀ self, (value (run E (from_crawler crawler) w)).1 = inr self →
           signals (value (run E (from_crawler crawler) w)).2 =
             signals crawler ++ [(bound_spider_closed self, signals_spider_closed)]).
Proof.
  destruct (missing_configuration_dec crawler) as [Hmiss | Hconf].
  - destruct (from_crawler_missing crawler Hmiss) as [msg ->]. by repeat split.
  - rewrite (run_from_crawler E crawler w Hconf). unfold value.
    destruct (run E (instantiate_from crawler {| driver := None |}) w)
      as [[[[e | []] self'] w'] t]; simpl; repeat split; try done.
    by intros self [= <-].
Qed.

Lemma from_crawler_raises_same crawler crawler' :
  settings_get crawler "SELENIUM_DRIVER_NAME" =
    settings_get crawler' "SELENIUM_DRIVER_NAME" →
  settings_get crawler "SELENIUM_DRIVER_EXECUTABLE_PATH" =
    settings_get crawler' "SELENIUM_DRIVER_EXECUTABLE_PATH" →
  settings_get crawler "SELENIUM_COMMAND_EXECUTOR" =
    settings_get crawler' "SELENIUM_COMMAND_EXECUTOR" →
  missing_configuration crawler →
  ∃ msg, from_crawler crawler = Ret (inl (NotConfigured msg), crawler) ∧
         from_crawler crawler' = Ret (inl (NotConfigured msg), crawler').
Proof.
  intros Hn Hp Hc. unfold missing_configuration, unset, from_crawler.
  change (mbind get_state ?f crawler) with (f crawler crawler).
  change (mbind get_state ?f crawler') with (f crawler' crawler'). cbv beta zeta.
  rewrite <- Hn, <- Hp, <- Hc.
  intros [H | [H1 H2]].
  - rewrite H. by eexists.
  - rewrite H1, H2.
    destruct (is_None (settings_get crawler "SELENIUM_DRIVER_NAME")); by eexists.
Qed.

Ltac listed := first [ left; reflexivity | right; listed ].

(** X11. [from_crawler] depends on the crawler through the nine
    [SELENIUM_*] settings it reads and nothing else: on two crawlers that
    agree on them, whatever their other settings and their receivers, it
    returns the same middleware or raises the same exception, after the same
    commands. *)
Theorem from_crawler_reads_selenium_settings (E : env) crawler crawler' (w : world E) :
  (∀ name, In name selenium_settings →
           settings_get crawler name = settings_get crawler' name) →
  (value (run E (from_crawler crawler) w)).1 =
    (value (run E (from_crawler crawler') w)).1 ∧
  final (run E (from_crawler crawler) w) = final (run E (from_crawler crawler') w) ∧
  trace (run E (from_crawler crawler) w) = trace (run E (from_crawler crawler') w).
Proof.
  intros Hsame.
  assert (Hn := Hsame "SELENIUM_DRIVER_NAME"%string ltac:(listed)).
  assert (Hp := Hsame "SELENIUM_DRIVER_EXECUTABLE_PATH"%string ltac:(listed)).
  assert (Hb := Hsame "SELENIUM_BROWSER_EXECUTABLE_PATH"%string ltac:(listed)).
  assert (Hc := Hsame "SELENIUM_COMMAND_EXECUTOR"%string ltac:(listed)).
  assert (Ha := Hsame "SELENIUM_DRIVER_ARGUMENTS"%string ltac:(listed)).
  assert (Hd := Hsame "SELENIUM_DRIVER_DESIRED_CAPABILITIES"%string ltac:(listed)).
  assert (Hw := Hsame "SELENIUM_DRIVER_USE_WIRE"%string ltac:(listed)).
  assert (Ho := Hsame "SELENIUM_DRIVER_WIRE_OPTIONS"%string ltac:(listed)).
  assert (Hu := Hsame "SELENIUM_DRIVER_USER_AGENT"%string ltac:(listed)).
  destruct (missing_configuration_dec crawler) as [Hmiss | Hconf].
  - destruct (from_crawler_raises_same crawler crawler' Hn Hp Hc Hmiss)
      as (msg & -> & ->). done.
  - assert (Hconf' : ¬ missing_configuration crawler').
    { unfold missing_configuration, unset in *. by rewrite <- Hn, <- Hp, <- Hc. }
    rewrite (run_from_crawler E crawler w Hconf),
            (run_from_crawler E crawler' w Hconf').
    assert (Hinit : instantiate_from crawler = instantiate_from crawler').
    { unfold instantiate_from. by rewrite Hn, Hp, Hb, Hc, Ha, Hd, Hw, Ho, Hu. }
    rewrite <- Hinit. unfold value, final, trace.
    by destruct (run E (instantiate_from crawler {| driver := None |}) w)
      as [[[[e | []] self'] w'] t].
Qed.

Lemma from_crawler_reads_selenium_settings_witness :
  (value (run Scripted.browser (from_crawler Scripted.local_crawler) Scripted.initial)).1 =
    (value (run Scripted.browser (from_crawler busy_crawler) Scripted.initial)).1 ∧
  final (run Scripted.browser (from_crawler Scripted.local_crawler) Scripted.initial) =
    final (run Scripted.browser (from_crawler busy_crawler) Scripted.initial) ∧
  trace (run Scripted.browser (from_crawler Scripted.local_crawler) Scripted.initial) =
    trace (run Scripted.browser (from_crawler busy_crawler) Scripted.initial).
Proof.
  apply (from_crawler_reads_selenium_settings Scripted.browser Scripted.local_crawler
           busy_crawler Scripted.initial).
  intros name Hin. unfold selenium_settings in Hin. simpl in Hin.
  repeat (destruct Hin as [<- | Hin]; [vm_compute; reflexivity |]).
  destruct Hin.
Defined.

(** ** The packaging script *)

Lemma str_lt_trans a b c :
  Setup.str_lt a b = true → Setup.str_lt b c = true → Setup.str_lt a c = true.
Proof.
  revert b c. induction a as [| x a IH]; intros [| y b] [| z c]; simpl; try done.
  intros [Hxy | [Hxy Hab]%andb_true_iff]%orb_true_iff
         [Hyz | [Hyz Hbc]%andb_true_iff]%orb_true_iff;
    apply orb_true_iff; rewrite ?andb_true_iff.
  - left. apply N.ltb_lt in Hxy, Hyz. apply N.ltb_lt. lia.
  - left. apply N.ltb_lt in Hxy. apply N.eqb_eq in Hyz. apply N.ltb_lt. lia.
  - left. apply N.eqb_eq in Hxy. apply N.ltb_lt in Hyz. apply N.ltb_lt. lia.
  - right. apply N.eqb_eq in Hxy, Hyz. split; [apply N.eqb_eq; lia |].
    by apply (IH b c).
Qed.

Example pip_9_taken_for_a_recent_pip :
  Setup.select (lit "9.0.1") = Some Setup.network_session ∧
  Setup.select (lit "100.0") = Some Setup.download ∧
  Setup.select (lit "1.5.6") = None.
Proof. by repeat split. Qed.

(** X12. [setup.py] compares the pip version as text.  The second test of
    the [elif] decides nothing; the [else] branch, which raises, is taken
    exactly by the strings below ["10.0"], which every version that starts
    with [1.] is; a version whose first character is above [1] takes the
    branch of pip 19.3 and later; and the [else] branch leaves with its
    exception whatever can be imported. *)
Theorem pip_version_compared_as_text :
  (∀ version,
     Setup.select version =
       if Setup.str_ge version (lit "19.3") then Some Setup.network_session
       else if Setup.str_ge version (lit "10.0") then Some Setup.download
       else None) ∧
  (∀ version, Setup.select version = None ↔
              Setup.str_lt version (lit "10.0") = true) ∧
  (∀ rest, Setup.select (lit "1." ++ rest) = None) ∧
  (∀ c rest, 0x31 < c → Setup.select (c :: rest) = Some Setup.network_session) ∧
  (∀ version importable,
     Setup.prepare version importable = Setup.upgrade_required ↔
     Setup.str_lt version (lit "10.0") = true).
Proof.
  assert (Hnone : ∀ version, Setup.select version = None ↔
                             Setup.str_lt version (lit "10.0") = true).
  { intros version. unfold Setup.select, Setup.str_ge.
    destruct (Setup.str_lt version (lit "19.3")) eqn:H19; simpl.
    - destruct (Setup.str_lt version (lit "10.0")); simpl; by split.
    - split; [done |]. intros H10.
      by rewrite (str_lt_trans version (lit "10.0") (lit "19.3") H10) in H19. }
  split; [| split; [exact Hnone |]; split; [| split]].
  - intros version. unfold Setup.select, Setup.str_ge.
    destruct (Setup.str_lt version (lit "19.3")); simpl; [| done].
    by rewrite andb_true_r.
  - intros rest. by apply Hnone.
  - intros c rest Hc. unfold Setup.select, Setup.str_ge.
    change (lit "19.3") with (0x31 :: lit "9.3"). cbn [Setup.str_lt].
    rewrite (proj2 (N.ltb_ge _ _)) by lia.
    by rewrite (proj2 (N.eqb_neq _ _)) by lia.
  - intros version importable. rewrite <- Hnone. unfold Setup.prepare.
    destruct (Setup.select version) as [p |]; [| done].
    destruct (importable _); [destruct (importable _) |]; by split.
Qed.
